(** * Mesh viewer: triangulation, normals, face centres, explosion state

    A shallow embedding of the mesh-processing core of the viewer:
    - [mesh.h]              : [Mesh] construction (fan triangulation,
                              [calculateNormals], [calculateFaceCenters]),
                              [setupMesh], [updateBuffers];
    - [explosion_effect.h]  : the snapshot store [explodedModels] with
                              [initializeExplosion], [updateExplosion],
                              [resetExplosion], [cleanupExplosionData];
    - [main.cpp]            : the parts of the render loop and of the key
                              handler that drive the explosion;
    - [vertex_shader.glsl]  : the displacement computed per vertex.

    Numbers are IEEE-754 binary32 values ([float] in C++ and GLSL), every
    operation rounded to nearest-even on its own, as the build of the
    Makefile ([g++ -std=c++17], no fast-math, no fused multiply-add)
    evaluates them.  The specification of the operations is
    [SpecFloat] instantiated at 24 bits of precision. *)

From Stdlib Require Import ZArith Bool Lia.
From Stdlib Require Import Floats.SpecFloat.
From stdpp Require Import base option list gmap.

Local Open Scope Z_scope.

(** ** binary32 arithmetic *)

Abbreviation float := spec_float.

Module F32.

Definition prec : Z := 24.
Definition emax : Z := 128.

Definition add : float -> float -> float := SFadd prec emax.
Definition sub : float -> float -> float := SFsub prec emax.
Definition mul : float -> float -> float := SFmul prec emax.
Definition div : float -> float -> float := SFdiv prec emax.
Definition sqrt : float -> float := SFsqrt prec emax.

(** [x > y], [x < y] and [x == y] of C++: false as soon as an operand is NaN. *)
Definition gtb (x y : float) : bool := SFltb y x.
Definition ltb (x y : float) : bool := SFltb x y.
Definition eqb (x y : float) : bool := SFeqb x y.

(** [static_cast<float>(n)] for an integer [n]; also the value of a
    literal such as [3.0f]. *)
Definition of_int (n : Z) : float := binary_normalize prec emax n 0 false.

Definition zero : float := S754_zero false.
Definition one : float := of_int 1.
Definition two : float := of_int 2.
Definition three : float := of_int 3.

(** The literal [0.0001f]: the binary32 value nearest to 1/10000,
    13743895 * 2^-37 (bit pattern 0x38D1B717). *)
Definition lit_0_0001 : float := S754_finite false 13743895 (-37).

(** The literal [0.5f]. *)
Definition half : float := S754_finite false 8388608 (-24).

(** 2^k as a binary32 value, for -126 <= k <= 127. *)
Definition pow2 (k : Z) : float := S754_finite false 8388608 (k - 23).

Definition is_nan (x : float) : bool :=
  match x with S754_nan => true | _ => false end.

(** Zero or a finite non-zero value: neither an infinity nor NaN. *)
Definition is_finite (x : float) : bool :=
  match x with
  | S754_zero _ | S754_finite _ _ _ => true
  | _ => false
  end.

End F32.

(** ** The [glm] vector operations used by the sources

    [glm::vec3] with the scalar (non-SIMD) definitions of GLM:
    [dot] sums the three products left to right, [length] is
    [sqrt (dot v v)], [normalize v] is [v * inversesqrt (dot v v)] with
    [inversesqrt x = 1 / sqrt x]. *)

Record vec3 : Type := mkvec3 { vx : float; vy : float; vz : float }.

Module glm.

Definition vec3_splat (s : float) : vec3 := mkvec3 s s s.

Definition add (a b : vec3) : vec3 :=
  mkvec3 (F32.add (vx a) (vx b)) (F32.add (vy a) (vy b)) (F32.add (vz a) (vz b)).

Definition sub (a b : vec3) : vec3 :=
  mkvec3 (F32.sub (vx a) (vx b)) (F32.sub (vy a) (vy b)) (F32.sub (vz a) (vz b)).

Definition scale (a : vec3) (s : float) : vec3 :=
  mkvec3 (F32.mul (vx a) s) (F32.mul (vy a) s) (F32.mul (vz a) s).

Definition divs (a : vec3) (s : float) : vec3 :=
  mkvec3 (F32.div (vx a) s) (F32.div (vy a) s) (F32.div (vz a) s).

Definition dot (a b : vec3) : float :=
  F32.add (F32.add (F32.mul (vx a) (vx b)) (F32.mul (vy a) (vy b)))
          (F32.mul (vz a) (vz b)).

Definition cross (x y : vec3) : vec3 :=
  mkvec3 (F32.sub (F32.mul (vy x) (vz y)) (F32.mul (vy y) (vz x)))
         (F32.sub (F32.mul (vz x) (vx y)) (F32.mul (vz y) (vx x)))
         (F32.sub (F32.mul (vx x) (vy y)) (F32.mul (vx y) (vy x))).

Definition length (v : vec3) : float := F32.sqrt (dot v v).

Definition inversesqrt (x : float) : float := F32.div F32.one (F32.sqrt x).

Definition normalize (v : vec3) : vec3 := scale v (inversesqrt (dot v v)).

End glm.

Definition vzero : vec3 := glm.vec3_splat F32.zero.

(** Component-wise [==] of two vectors. *)
Definition vec3_eqb (a b : vec3) : bool :=
  F32.eqb (vx a) (vx b) && F32.eqb (vy a) (vy b) && F32.eqb (vz a) (vz b).

Definition vec3_has_nan (a : vec3) : bool :=
  F32.is_nan (vx a) || F32.is_nan (vy a) || F32.is_nan (vz a).

Definition vec3_finite (a : vec3) : bool :=
  F32.is_finite (vx a) && F32.is_finite (vy a) && F32.is_finite (vz a).

(** A vector with whole-number coordinates. *)
Definition vec3_of_ints (a b c : Z) : vec3 :=
  mkvec3 (F32.of_int a) (F32.of_int b) (F32.of_int c).

(** ** The model read from an OFF file *)

Module Off.

(** Modelled from the spec: [OFFReader.h] (the types [Vertex], [Polygon]
    and [OffModel], and the functions [readOffFile], [computeNormals] and
    [FreeOffModel]) is not among the sources.  The records below hold the
    fields that [mesh.h] and [explosion_effect.h] read and write: a vertex
    is a position, a normal and the incident-face counter of the data
    model; a polygon is its side count and its vertex indices; a model is
    the two arrays with their counts and the extents.  [normal] is a
    struct of three floats [x], [y], [z], rendered as a [vec3]. *)
Record Vertex : Type := mkVertex {
  x : float;
  y : float;
  z : float;
  normal : vec3;
  numIcidentTri : Z
}.

Record Polygon : Type := mkPolygon {
  noSides : Z;
  v : list Z
}.

Record OffModel : Type := mkOffModel {
  vertices : list Vertex;
  polygons : list Polygon;
  numberOfVertices : Z;
  numberOfPolygons : Z;
  minX : float; minY : float; minZ : float;
  maxX : float; maxY : float; maxZ : float;
  extent : float
}.

Definition pos (a : Vertex) : vec3 := mkvec3 (x a) (y a) (z a).

Definition set_pos (p : vec3) (a : Vertex) : Vertex :=
  mkVertex (vx p) (vy p) (vz p) (normal a) (numIcidentTri a).

Definition set_normal (n : vec3) (a : Vertex) : Vertex :=
  mkVertex (x a) (y a) (z a) n (numIcidentTri a).

Definition incr_numIcidentTri (a : Vertex) : Vertex :=
  mkVertex (x a) (y a) (z a) (normal a) (numIcidentTri a + 1).

Definition set_vertices (vs : list Vertex) (m : OffModel) : OffModel :=
  mkOffModel vs (polygons m) (numberOfVertices m) (numberOfPolygons m)
             (minX m) (minY m) (minZ m) (maxX m) (maxY m) (maxZ m) (extent m).

Definition positions (m : OffModel) : list vec3 := map pos (vertices m).

End Off.

(** Reading an array element outside its bounds is undefined in C++; the
    total lookup [l !!! i] returns these values there, and every theorem
    below that depends on a read states the bounds it needs. *)
#[global] Instance float_inhabited : Inhabited spec_float := populate F32.zero.
#[global] Instance vec3_inhabited : Inhabited vec3 := populate vzero.
#[global] Instance Off_Vertex_inhabited : Inhabited Off.Vertex :=
  populate (Off.mkVertex F32.zero F32.zero F32.zero vzero 0).
#[global] Instance Off_Polygon_inhabited : Inhabited Off.Polygon :=
  populate (Off.mkPolygon 0 []).

(** [for (int i = lo; i < hi; i++) body], the counter taken as a natural
    number (it never leaves [lo .. hi]). *)
Definition for_range {S : Type} (lo hi : nat) (body : nat -> S -> S) (s : S) : S :=
  foldl (fun acc i => body i acc) s (seq lo (hi - lo)).

(** Conversion of an [int] to [unsigned int], as [push_back] does on the
    index vector. *)
Definition to_uint (n : Z) : Z := n mod 2 ^ 32.

(** ** [mesh.h] *)

Record MeshVertex : Type := mkMeshVertex {
  position : vec3;
  normal : vec3;
  faceCenter : vec3
}.

#[global] Instance MeshVertex_inhabited : Inhabited MeshVertex :=
  populate (mkMeshVertex vzero vzero vzero).

Definition set_normal (n : vec3) (a : MeshVertex) : MeshVertex :=
  mkMeshVertex (position a) n (faceCenter a).

Definition add_normal (n : vec3) (a : MeshVertex) : MeshVertex :=
  mkMeshVertex (position a) (glm.add (normal a) n) (faceCenter a).

Definition set_faceCenter (c : vec3) (a : MeshVertex) : MeshVertex :=
  mkMeshVertex (position a) (normal a) c.

(** [OffModel*]: an address, [0] being [nullptr]. *)
Definition addr : Type := N.
Definition nullptr : addr := 0%N.

Record Mesh : Type := mkMesh {
  vertices : list MeshVertex;
  indices : list Z;
  centerOfMass : vec3;
  boundingSphereRadius : float;
  offModel : addr
}.

(** The index vector read three entries at a time, as the loops
    [for (i = 0; i < indices.size(); i += 3)] read [indices[i]],
    [indices[i+1]], [indices[i+2]].  The constructor only ever pushes
    three entries at once, so the length is a multiple of three and the
    loops visit exactly these triples. *)
Fixpoint triangles (idx : list Z) : list (Z * Z * Z) :=
  match idx with
  | a :: b :: c :: rest => (a, b, c) :: triangles rest
  | _ => []
  end.

(** The inner loop of the constructor: fan triangulation of one polygon,
    appended to the index vector. *)
Definition triangulate (polygon : Off.Polygon) (indices : list Z) : list Z :=
  for_range 1 (Z.to_nat (Off.noSides polygon - 1))
    (fun j indices =>
       indices ++ [to_uint (Off.v polygon !!! 0%nat);
                   to_uint (Off.v polygon !!! j);
                   to_uint (Off.v polygon !!! (j + 1)%nat)])
    indices.

(** The state the private passes of [Mesh] work on: the vertex vector of
    the mesh and the vertex array of the model behind [offModel]. *)
Definition PassState : Type := (list MeshVertex * list Off.Vertex)%type.

(** The face normal computed in an iteration of the second loop of
    [calculateNormals]. *)
Definition faceNormal_of (vs : list MeshVertex) (t : Z * Z * Z) : vec3 :=
  let '(idx1, idx2, idx3) := t in
  let v1 := position (vs !!! Z.to_nat idx1) in
  let v2 := position (vs !!! Z.to_nat idx2) in
  let v3 := position (vs !!! Z.to_nat idx3) in
  let edge1 := glm.sub v2 v1 in
  let edge2 := glm.sub v3 v1 in
  glm.normalize (glm.cross edge1 edge2).

(** One iteration of the second loop of [calculateNormals]. *)
Definition accumulate_triangle (st : PassState) (t : Z * Z * Z) : PassState :=
  let '(vs, ovs) := st in
  let '(idx1, idx2, idx3) := t in
  let faceNormal := faceNormal_of vs t in
  let vs := alter (add_normal faceNormal) (Z.to_nat idx1) vs in
  let vs := alter (add_normal faceNormal) (Z.to_nat idx2) vs in
  let vs := alter (add_normal faceNormal) (Z.to_nat idx3) vs in
  let ovs := alter Off.incr_numIcidentTri (Z.to_nat idx1) ovs in
  let ovs := alter Off.incr_numIcidentTri (Z.to_nat idx2) ovs in
  let ovs := alter Off.incr_numIcidentTri (Z.to_nat idx3) ovs in
  (vs, ovs).

(** The first two loops of [calculateNormals]: every normal set to zero,
    then one contribution per triangle. *)
Definition accumulateNormals (indices : list Z) (st : PassState) : PassState :=
  let '(vs, ovs) := st in
  foldl accumulate_triangle (map (set_normal (glm.vec3_splat F32.zero)) vs, ovs)
        (triangles indices).

(** What the third loop of [calculateNormals] does to a vertex. *)
Definition normalized_or_kept (v : MeshVertex) : MeshVertex :=
  if F32.gtb (glm.length (normal v)) F32.lit_0_0001
  then set_normal (glm.normalize (normal v)) v
  else v.

(** One iteration of the third loop of [calculateNormals]. *)
Definition normalize_vertex (i : nat) (st : PassState) : PassState :=
  let '(vs, ovs) := st in
  if F32.gtb (glm.length (normal (vs !!! i))) F32.lit_0_0001 then
    let n := glm.normalize (normal (vs !!! i)) in
    (alter (set_normal n) i vs, alter (Off.set_normal n) i ovs)
  else (vs, ovs).

Definition normalizeNormals (st : PassState) : PassState :=
  for_range 0 (length (fst st)) normalize_vertex st.

Definition calculateNormals (indices : list Z) (st : PassState) : PassState :=
  normalizeNormals (accumulateNormals indices st).

(** The centre computed in an iteration of the loop of
    [calculateFaceCenters]. *)
Definition center_of (vs : list MeshVertex) (t : Z * Z * Z) : vec3 :=
  let '(idx1, idx2, idx3) := t in
  glm.divs (glm.add (glm.add (position (vs !!! Z.to_nat idx1))
                             (position (vs !!! Z.to_nat idx2)))
                    (position (vs !!! Z.to_nat idx3)))
           F32.three.

(** One iteration of the loop of [calculateFaceCenters]. *)
Definition store_center (vs : list MeshVertex) (t : Z * Z * Z) : list MeshVertex :=
  let '(idx1, idx2, idx3) := t in
  let center := center_of vs t in
  let vs := alter (set_faceCenter center) (Z.to_nat idx1) vs in
  let vs := alter (set_faceCenter center) (Z.to_nat idx2) vs in
  let vs := alter (set_faceCenter center) (Z.to_nat idx3) vs in
  vs.

Definition calculateFaceCenters (indices : list Z) (vs : list MeshVertex) : list MeshVertex :=
  foldl store_center vs (triangles indices).

(** [calculateCenterAndRadius]. *)
Definition centerOfMass_of (m : Off.OffModel) : vec3 :=
  mkvec3 (F32.div (F32.add (Off.minX m) (Off.maxX m)) F32.two)
         (F32.div (F32.add (Off.minY m) (Off.maxY m)) F32.two)
         (F32.div (F32.add (Off.minZ m) (Off.maxZ m)) F32.two).

Definition boundingSphereRadius_of (m : Off.OffModel) : float :=
  F32.div (Off.extent m) F32.two.

(** The two loops of the constructor.  [MeshVertex vertex;] leaves
    [faceCenter] indeterminate: [uninit i] stands for whatever the [i]-th
    vertex holds there before [calculateFaceCenters] runs. *)
Definition Mesh_vertices (uninit : nat -> vec3) (m : Off.OffModel) : list MeshVertex :=
  for_range 0 (Z.to_nat (Off.numberOfVertices m))
    (fun i vertices =>
       vertices ++ [mkMeshVertex
                      (mkvec3 (Off.x (Off.vertices m !!! i))
                              (Off.y (Off.vertices m !!! i))
                              (Off.z (Off.vertices m !!! i)))
                      (glm.vec3_splat F32.zero)
                      (uninit i)])
    [].

Definition Mesh_indices (m : Off.OffModel) : list Z :=
  for_range 0 (Z.to_nat (Off.numberOfPolygons m))
    (fun i indices => triangulate (Off.polygons m !!! i) indices)
    [].

(** The constructor [Mesh::Mesh], from the point where [readOffFile] has
    returned the model [m] stored at address [p]: it yields the mesh and
    the model as the normal pass leaves it. *)
Definition Mesh_of_model (uninit : nat -> vec3) (p : addr) (m : Off.OffModel)
  : Mesh * Off.OffModel :=
  let vertices := Mesh_vertices uninit m in
  let indices := Mesh_indices m in
  let '(vertices, ovs) := calculateNormals indices (vertices, Off.vertices m) in
  let vertices := calculateFaceCenters indices vertices in
  (mkMesh vertices indices (centerOfMass_of m) (boundingSphereRadius_of m) p,
   Off.set_vertices ovs m).

Definition getOffModel (mesh : Mesh) : addr := offModel mesh.

(** ** The buffers on the GL side

    The array buffer is kept as the sequence of its 4-byte words; a
    [MeshVertex] is nine floats, the position at words 0-2, the normal at
    3-5 and the face centre at 6-8, which is the attribute layout
    [setupMesh] declares. *)
Record GLBuffers : Type := mkGLBuffers {
  array_buffer : list float;
  element_buffer : list Z
}.

Definition words_of_MeshVertex (a : MeshVertex) : list float :=
  [vx (position a); vy (position a); vz (position a);
   vx (normal a); vy (normal a); vz (normal a);
   vx (faceCenter a); vy (faceCenter a); vz (faceCenter a)].

Definition sizeof_MeshVertex_words : nat := 9.

(** [sizeof(Vertex)] in words, for the [Vertex] of [OFFReader.h] as
    given above: three coordinates, a three-float normal and an [int]. *)
Definition sizeof_Vertex_words : nat := 7.

Definition setupMesh (mesh : Mesh) : GLBuffers :=
  mkGLBuffers (flat_map words_of_MeshVertex (vertices mesh)) (indices mesh).

(** [updateBuffers]: a new data store of [vertices.size() * sizeof(Vertex)]
    bytes filled from the start of the vertex vector. *)
Definition updateBuffers (mesh : Mesh) (gl : GLBuffers) : GLBuffers :=
  mkGLBuffers
    (take (length (vertices mesh) * sizeof_Vertex_words)
          (flat_map words_of_MeshVertex (vertices mesh)))
    (element_buffer gl).

(** The three attributes the vertex shader receives for vertex [k]. *)
Definition attributes (gl : GLBuffers) (k : nat) : vec3 * vec3 * vec3 :=
  let w (j : nat) := array_buffer gl !!! (k * sizeof_MeshVertex_words + j)%nat in
  (mkvec3 (w 0%nat) (w 1%nat) (w 2%nat),
   mkvec3 (w 3%nat) (w 4%nat) (w 5%nat),
   mkvec3 (w 6%nat) (w 7%nat) (w 8%nat)).

(** ** [vertex_shader.glsl] *)

Module Shader.






(** The first two statements of [main]. *)
Definition explodedPos (aPos aFaceCenter : vec3) (explodeFactor : float) : vec3 :=
  let direction := glm.sub aPos aFaceCenter in
  glm.add aPos (glm.scale direction explodeFactor).



End Shader.

(** ** [explosion_effect.h] *)

Record ExplodedVertexData : Type := mkExplodedVertexData {
  originalX : float;
  originalY : float;
  originalZ : float
}.

#[global] Instance ExplodedVertexData_inhabited : Inhabited ExplodedVertexData :=
  populate (mkExplodedVertexData F32.zero F32.zero F32.zero).

Definition original (d : ExplodedVertexData) : vec3 :=
  mkvec3 (originalX d) (originalY d) (originalZ d).

(** The memory the functions work on: the models that are alive, by
    address, and the global map [explodedModels]. *)
Record World : Type := mkWorld {
  heap : gmap N Off.OffModel;
  explodedModels : gmap N (list ExplodedVertexData)
}.

Definition set_model (p : addr) (m : Off.OffModel) (w : World) : World :=
  mkWorld (<[p := m]> (heap w)) (explodedModels w).

(** The snapshot [initializeExplosion] builds: [resize] value-initialises
    the entries, the loop then fills them. *)
Definition snapshot_of (m : Off.OffModel) : list ExplodedVertexData :=
  for_range 0 (Z.to_nat (Off.numberOfVertices m))
    (fun i originalVertices =>
       <[i := mkExplodedVertexData (Off.x (Off.vertices m !!! i))
                                   (Off.y (Off.vertices m !!! i))
                                   (Off.z (Off.vertices m !!! i))]> originalVertices)
    (replicate (Z.to_nat (Off.numberOfVertices m))
               (mkExplodedVertexData F32.zero F32.zero F32.zero)).

(** A pointer that is neither null nor the address of a live model is
    dangling; dereferencing it is undefined, and the functions below leave
    the world as it is in that case. *)
Definition initializeExplosion (model : addr) (w : World) : World :=
  if (model =? nullptr)%N then w
  else match explodedModels w !! model with
       | Some _ => w
       | None =>
         match heap w !! model with
         | None => w
         | Some m => mkWorld (heap w) (<[model := snapshot_of m]> (explodedModels w))
         end
       end.

(** The centre computed by [updateExplosion]. *)
Definition explosion_center (n : Z) (originalVertices : list ExplodedVertexData) : vec3 :=
  glm.divs
    (for_range 0 (Z.to_nat n)
       (fun i center => glm.add center (original (originalVertices !!! i)))
       (glm.vec3_splat F32.zero))
    (F32.of_int n).

(** The direction chosen for a vertex in the second loop. *)
Definition explosion_direction (center orig : vec3) : vec3 :=
  let direction := glm.sub orig center in
  let distance := glm.length direction in
  if F32.gtb distance F32.lit_0_0001 then glm.normalize direction
  else mkvec3 F32.zero F32.one F32.zero.

Definition exploded_position (center orig : vec3) (factor : float) : vec3 :=
  glm.add orig (glm.scale (explosion_direction center orig) factor).

Definition explode_vertices (n : Z) (originalVertices : list ExplodedVertexData)
    (factor : float) (vs : list Off.Vertex) : list Off.Vertex :=
  let center := explosion_center n originalVertices in
  for_range 0 (Z.to_nat n)
    (fun i vs =>
       alter (Off.set_pos (exploded_position center (original (originalVertices !!! i)) factor))
             i vs)
    vs.

Definition restore_vertices (n : Z) (originalVertices : list ExplodedVertexData)
    (vs : list Off.Vertex) : list Off.Vertex :=
  for_range 0 (Z.to_nat n)
    (fun i vs => alter (Off.set_pos (original (originalVertices !!! i))) i vs)
    vs.

Definition cleanupExplosionData (model : addr) (w : World) : World :=
  mkWorld (heap w) (delete model (explodedModels w)).

Definition cleanupAllExplosionData (w : World) : World :=
  mkWorld (heap w) ∅.

Section Explosion.

(** [computeNormals] belongs to [OFFReader.h], which is not among the
    sources: it is a parameter here.  The specification describes it as
    the pass that recomputes the normals of the model; the theorems that
    need it assume that it leaves the positions of the vertices alone. *)
Variable computeNormals : Off.OffModel -> Off.OffModel.

Definition updateExplosion (model : addr) (factor : float) (w : World) : World :=
  if (model =? nullptr)%N then w
  else match explodedModels w !! model with
       | None => initializeExplosion model w
       | Some originalVertices =>
         match heap w !! model with
         | None => w
         | Some m =>
           let vs := explode_vertices (Off.numberOfVertices m) originalVertices factor
                                      (Off.vertices m) in
           set_model model (computeNormals (Off.set_vertices vs m)) w
         end
       end.

Definition resetExplosion (model : addr) (w : World) : World :=
  if (model =? nullptr)%N then w
  else match explodedModels w !! model with
       | None => w
       | Some originalVertices =>
         match heap w !! model with
         | None => w
         | Some m =>
           let vs := restore_vertices (Off.numberOfVertices m) originalVertices
                                      (Off.vertices m) in
           set_model model (computeNormals (Off.set_vertices vs m)) w
         end
       end.

End Explosion.

(** ** [main.cpp]: the state and the code that drive the explosion *)

Module Main.

(** The mesh, the GL buffers filled by [setupMesh], the memory, and the
    globals [explodeFactor], [explodeAnimation], [explodeDirection] and
    [offModel]. *)
Record App : Type := mkApp {
  mesh : Mesh;
  gl : GLBuffers;
  world : World;
  explodeFactor : float;
  explodeAnimation : bool;
  explodeDirection : float;
  offModel : addr
}.

Inductive Event : Type :=
| Frame (deltaTime : float)      (* the update at the top of the render loop *)
| SliderMoved (value : float)    (* the slider returned true with this value *)
| ExplodeView                    (* the button, or the key B *)
| KeyN                           (* the key N *)
| Shutdown.                      (* the code after the render loop *)

(** Lines 113-125 of [main]: [p] is the pointer [readOffFile] returned;
    the constructor throws when it is null. *)
Definition startup (uninit : nat -> vec3) (p : addr) (w : World) : option App :=
  if (p =? nullptr)%N then None
  else match heap w !! p with
       | None => None
       | Some m =>
         let '(mesh, m') := Mesh_of_model uninit p m in
         let w := set_model p m' w in
         let gl := setupMesh mesh in
         let offModel := getOffModel mesh in
         let w := if (offModel =? nullptr)%N then w else initializeExplosion offModel w in
         Some (mkApp mesh gl w F32.zero false F32.one offModel)
       end.

Definition with_world (w : World) (a : App) : App :=
  mkApp (mesh a) (gl a) w (explodeFactor a) (explodeAnimation a)
        (explodeDirection a) (offModel a).

(** Lines 214-217 and 381-383. *)
Definition explode_view (a : App) : App :=
  mkApp (mesh a) (gl a) (world a) (explodeFactor a) true
        (if F32.gtb (explodeFactor a) F32.half then F32.of_int (-1) else F32.one)
        (offModel a).

Section Driver.

Variable computeNormals : Off.OffModel -> Off.OffModel.

(** Lines 179-196: the animation step of a frame. *)
Definition frame (deltaTime : float) (a : App) : App :=
  if explodeAnimation a then
    let explodeFactor := F32.add (explodeFactor a) (F32.mul (explodeDirection a) deltaTime) in
    let '(explodeFactor, explodeDirection, explodeAnimation) :=
      if F32.gtb explodeFactor F32.one then (F32.one, F32.of_int (-1), true)
      else if F32.ltb explodeFactor F32.zero then (F32.zero, F32.one, false)
      else (explodeFactor, explodeDirection a, true) in
    let w := if (offModel a =? nullptr)%N then world a
             else updateExplosion computeNormals (offModel a) explodeFactor (world a) in
    mkApp (mesh a) (gl a) w explodeFactor explodeAnimation explodeDirection (offModel a)
  else a.

(** Lines 219-224: the slider stored [value] in [explodeFactor]. *)
Definition slider_moved (value : float) (a : App) : App :=
  let w := if (offModel a =? nullptr)%N then world a
           else updateExplosion computeNormals (offModel a) value (world a) in
  mkApp (mesh a) (gl a) w value (explodeAnimation a) (explodeDirection a) (offModel a).

(** Lines 414-418. *)
Definition key_N (a : App) : App :=
  if (offModel a =? nullptr)%N then a
  else mkApp (mesh a) (gl a) (resetExplosion computeNormals (offModel a) (world a))
             F32.zero (explodeAnimation a) (explodeDirection a) (offModel a).

(** Lines 338-343. *)
Definition shutdown (a : App) : App :=
  let w := if (offModel a =? nullptr)%N then world a
           else cleanupExplosionData (offModel a)
                  (resetExplosion computeNormals (offModel a) (world a)) in
  with_world (cleanupAllExplosionData w) a.

Definition step (e : Event) (a : App) : App :=
  match e with
  | Frame deltaTime => frame deltaTime a
  | SliderMoved value => slider_moved value a
  | ExplodeView => explode_view a
  | KeyN => key_N a
  | Shutdown => shutdown a
  end.

Definition run (es : list Event) (a : App) : App := foldl (fun a e => step e a) a es.

End Driver.


(** The positions held by the array buffer, for the vertices of the mesh. *)
Definition buffered_positions (a : App) : list vec3 :=
  map (fun k => fst (fst (attributes (gl a) k))) (seq 0 (length (vertices (mesh a)))).

(** The positions of the model the application explodes. *)
Definition model_positions (a : App) : option (list vec3) :=
  Off.positions <$> heap (world a) !! offModel a.

End Main.

(** ** Well-formed models and the index buffer *)

(** Modelled from the spec: what [readOffFile] (not among the sources)
    guarantees of a model it returns.  The counts are those of the arrays
    and fit an [int]; every polygon has as many indices as sides and at
    least three of them (a polygon with fewer is a format error), and
    every index points into the vertex array (an index out of range is a
    format error). *)
Definition polygon_ok (nv : Z) (p : Off.Polygon) : bool :=
  (Off.noSides p =? Z.of_nat (length (Off.v p)))
  && (3 <=? Off.noSides p)
  && forallb (fun i => (0 <=? i) && (i <? nv)) (Off.v p).

Definition loaded_model (m : Off.OffModel) : bool :=
  (Off.numberOfVertices m =? Z.of_nat (length (Off.vertices m)))
  && (Off.numberOfVertices m <? 2 ^ 31)
  && (Off.numberOfPolygons m =? Z.of_nat (length (Off.polygons m)))
  && forallb (polygon_ok (Off.numberOfVertices m)) (Off.polygons m).

(** The invariant of the index buffer. *)
Definition index_buffer_ok (mesh : Mesh) : Prop :=
  (length (indices mesh) mod 3 = 0)%nat
  /\ Forall (fun i => 0 <= i < Z.of_nat (length (vertices mesh))) (indices mesh).

(** The model is alive and has a snapshot with one entry per vertex. *)
Definition initialized (model : addr) (m : Off.OffModel)
    (originalVertices : list ExplodedVertexData) (w : World) : Prop :=
  model <> nullptr
  /\ heap w !! model = Some m
  /\ explodedModels w !! model = Some originalVertices
  /\ Off.numberOfVertices m = Z.of_nat (length (Off.vertices m))
  /\ length originalVertices = length (Off.vertices m).

(** A triangle refers to vertex [k]. *)
Definition incident (k : nat) (t : Z * Z * Z) : bool :=
  let '(a, b, c) := t in
  (Z.to_nat a =? k)%nat || (Z.to_nat b =? k)%nat || (Z.to_nat c =? k)%nat.

(** How many corners of a triangle are vertex [k]. *)
Definition corners (k : nat) (t : Z * Z * Z) : nat :=
  let '(a, b, c) := t in
  ((if (Z.to_nat a =? k)%nat then 1 else 0)
   + (if (Z.to_nat b =? k)%nat then 1 else 0)
   + (if (Z.to_nat c =? k)%nat then 1 else 0))%nat.

(** The last triangle of a list that refers to vertex [k]. *)
Fixpoint last_incident (k : nat) (ts : list (Z * Z * Z)) : option (Z * Z * Z) :=
  match ts with
  | [] => None
  | t :: ts =>
    match last_incident k ts with
    | Some t' => Some t'
    | None => if incident k t then Some t else None
    end
  end.

(** Vertex [k] is referred to by some triangle of the index buffer. *)
Definition referenced (k : nat) (idx : list Z) : bool :=
  existsb (incident k) (triangles idx).

(** ** Sample data *)

(** A second pass over the normals, to instantiate [computeNormals] in
    closed examples: it clears every normal and every counter. *)
Definition clearNormals (m : Off.OffModel) : Off.OffModel :=
  Off.set_vertices
    (map (fun a => Off.mkVertex (Off.x a) (Off.y a) (Off.z a) vzero 0) (Off.vertices m))
    m.

Definition vertex_at (a b c : float) : Off.Vertex := Off.mkVertex a b c vzero 0.

Definition model_of (vs : list Off.Vertex) (ps : list (list Z)) : Off.OffModel :=
  Off.mkOffModel vs (map (fun p => Off.mkPolygon (Z.of_nat (length p)) p) ps)
                 (Z.of_nat (length vs)) (Z.of_nat (length ps))
                 F32.zero F32.zero F32.zero F32.one F32.one F32.one F32.one.

(** A tetrahedron: four vertices, four triangular faces. *)
Definition tetrahedron : Off.OffModel :=
  model_of [vertex_at F32.zero F32.zero F32.zero;
            vertex_at F32.one F32.zero F32.zero;
            vertex_at F32.zero F32.one F32.zero;
            vertex_at F32.zero F32.zero F32.one]
           [[0; 2; 1]; [0; 1; 3]; [0; 3; 2]; [1; 2; 3]].

Definition world_with (p : addr) (m : Off.OffModel) : World :=
  mkWorld {[ p := m ]} ∅.

(** A right triangle with legs of length 2 (area 2). *)
Definition big_triangle : Off.OffModel :=
  model_of [vertex_at F32.zero F32.zero F32.zero;
            vertex_at F32.two F32.zero F32.zero;
            vertex_at F32.zero F32.two F32.zero]
           [[0; 1; 2]].

(** Two triangles folded onto each other along the edge 0-1, facing
    opposite ways up to a tilt of 2^-15. *)
Definition folded_pair : Off.OffModel :=
  model_of [vertex_at F32.zero F32.zero F32.zero;
            vertex_at F32.one F32.zero F32.zero;
            vertex_at F32.zero F32.one (F32.pow2 (-15));
            vertex_at F32.zero F32.one F32.zero]
           [[0; 1; 2]; [0; 3; 1]].

(** Two triangles that share the vertices 0 and 2. *)
Definition two_faces : Off.OffModel :=
  model_of [vertex_at F32.zero F32.zero F32.zero;
            vertex_at F32.three F32.zero F32.zero;
            vertex_at F32.zero F32.three F32.zero;
            vertex_at F32.zero F32.zero F32.three]
           [[0; 1; 2]; [0; 2; 3]].

(** A square of half-diagonal 2^-15 (about 3.05e-5) around the origin. *)
Definition tiny_square : Off.OffModel :=
  model_of [vertex_at (F32.pow2 (-15)) F32.zero F32.zero;
            vertex_at F32.zero (F32.pow2 (-15)) F32.zero;
            vertex_at (SFopp (F32.pow2 (-15))) F32.zero F32.zero;
            vertex_at F32.zero (SFopp (F32.pow2 (-15))) F32.zero]
           [[0; 1; 2; 3]].

(** A triangle and a fourth vertex that no polygon refers to. *)
Definition stray_vertex : Off.OffModel :=
  model_of [vertex_at F32.zero F32.zero F32.zero;
            vertex_at F32.one F32.zero F32.zero;
            vertex_at F32.zero F32.one F32.zero;
            vertex_at F32.three F32.three F32.three]
           [[0; 1; 2]].

(** The application right after lines 113-125 of [main], for the model
    [m] at address [p]. *)
Definition started (uninit : nat -> vec3) (p : addr) (m : Off.OffModel) : Main.App :=
  let '(mesh, m') := Mesh_of_model uninit p m in
  Main.mkApp mesh (setupMesh mesh)
             (initializeExplosion p (set_model p m' (world_with p m)))
             F32.zero false F32.one p.

Definition tetrahedron_app : Main.App := started (fun _ => vzero) 1%N tetrahedron.


(** Two vertices at (2^127, 0, 0): finite coordinates whose sum overflows. *)
Definition huge_pair : Off.OffModel :=
  model_of [vertex_at (F32.pow2 127) F32.zero F32.zero;
            vertex_at (F32.pow2 127) F32.zero F32.zero]
           [].


(** A world with two models. *)
Definition two_models : World :=
  mkWorld (<[2%N := tiny_square]> {[ 1%N := tetrahedron ]}) ∅.

(** A triangle, and a second face that names vertex 0 twice. *)
Definition repeated_index : Off.OffModel :=
  model_of [vertex_at F32.zero F32.zero F32.zero;
            vertex_at F32.one F32.zero F32.zero;
            vertex_at F32.zero F32.one F32.zero]
           [[0; 1; 2]; [0; 0; 1]].

(** Three vertices and no face. *)
Definition point_cloud : Off.OffModel :=
  model_of [vertex_at F32.zero F32.zero F32.zero;
            vertex_at F32.one F32.zero F32.zero;
            vertex_at F32.zero F32.one F32.zero]
           [].

(** ** Vocabulary for the further properties *)

Definition nan3 : vec3 := mkvec3 S754_nan S754_nan S754_nan.

(** Two corners of the triangle are the same vertex. *)
Definition repeated_corner (t : Z * Z * Z) : bool :=
  let '(a, b, c) := t in
  (Z.to_nat a =? Z.to_nat b)%nat || (Z.to_nat a =? Z.to_nat c)%nat
  || (Z.to_nat b =? Z.to_nat c)%nat.

(** What the third loop of [calculateNormals] does to the model vertex
    that goes with the mesh vertex [v]. *)
Definition mirrored (v : MeshVertex) (a : Off.Vertex) : Off.Vertex :=
  if F32.gtb (glm.length (normal v)) F32.lit_0_0001
  then Off.set_normal (glm.normalize (normal v)) a
  else a.

(** A zero of either sign, or NaN. *)
Definition zero_or_nan (x : float) : bool :=
  match x with S754_zero _ | S754_nan => true | _ => false end.

(** A finite value between 0 and 1. *)
Definition in_unit (f : float) : bool :=
  F32.is_finite f && SFleb F32.zero f && SFleb f F32.one.

(** What the events of the application carry: a finite frame time, and a
    slider value in the range of the slider (lines 219: 0.0f to 1.0f). *)
Definition sane_event (e : Main.Event) : bool :=
  match e with
  | Main.Frame deltaTime => F32.is_finite deltaTime
  | Main.SliderMoved value => in_unit value
  | _ => true
  end.

Definition is_Shutdown (e : Main.Event) : bool :=
  match e with Main.Shutdown => true | _ => false end.

(** The positions [updateExplosion] computes from a snapshot and a factor. *)
Definition exploded (snap : list ExplodedVertexData) (factor : float) : list vec3 :=
  map (fun base => exploded_position (explosion_center (Z.of_nat (length snap)) snap)
                                     (original base) factor)
      snap.

(** The model of the application is initialized with the snapshot [snap],
    and it is either at rest, with [explodeFactor] at 0, or exploded by
    [explodeFactor]. *)
Definition follows_factor (snap : list ExplodedVertexData) (a : Main.App) : Prop :=
  exists m,
    initialized (Main.offModel a) m snap (Main.world a)
    /\ ((Off.positions m = map original snap /\ Main.explodeFactor a = F32.zero)
        \/ Off.positions m = exploded snap (Main.explodeFactor a)).

(** ** The calls of [explosion_effect.h], in sequence *)

Inductive ExplosionCall : Type :=
| CallInitialize (model : addr)
| CallUpdate (model : addr) (factor : float)
| CallReset (model : addr)
| CallCleanup (model : addr)
| CallCleanupAll.

Section Calls.

Variable computeNormals : Off.OffModel -> Off.OffModel.

Definition do_call (c : ExplosionCall) (w : World) : World :=
  match c with
  | CallInitialize model => initializeExplosion model w
  | CallUpdate model factor => updateExplosion computeNormals model factor w
  | CallReset model => resetExplosion computeNormals model w
  | CallCleanup model => cleanupExplosionData model w
  | CallCleanupAll => cleanupAllExplosionData w
  end.

Definition do_calls (cs : list ExplosionCall) (w : World) : World :=
  foldl (fun w c => do_call c w) w cs.

End Calls.

(** The call does not erase the snapshot of [model]. *)
Definition spares (model : addr) (c : ExplosionCall) : bool :=
  match c with
  | CallCleanup q => negb (q =? model)%N
  | CallCleanupAll => false
  | _ => true
  end.

(** The pointer a call works on. *)
Definition target (c : ExplosionCall) : option addr :=
  match c with
  | CallInitialize q | CallUpdate q _ | CallReset q | CallCleanup q => Some q
  | CallCleanupAll => None
  end.

(** How many entries of the index buffer are vertex [k]. *)
Definition occurrences (k : nat) (idx : list Z) : nat :=
  length (filter (fun i => Z.to_nat i = k) idx).

(** ** [main.cpp]: the key handler and the globals it writes *)

Module Keys.

Inductive CursorMode : Type := CURSOR_NORMAL | CURSOR_DISABLED.

Inductive Key : Type := KEY_B | KEY_R | KEY_SPACE | KEY_TAB | KEY_N | KEY_other.

(** The globals [rotationAxis], [autoRotate], [showImGuiWindow] and
    [captureMouse], and the cursor mode of the window. *)
Record Controls : Type := mkControls {
  rotationAxis : vec3;
  autoRotate : bool;
  showImGuiWindow : bool;
  captureMouse : bool;
  cursor : CursorMode
}.

Definition axis_X : vec3 := mkvec3 F32.one F32.zero F32.zero.
Definition axis_Y : vec3 := mkvec3 F32.zero F32.one F32.zero.
Definition axis_Z : vec3 := mkvec3 F32.zero F32.zero F32.one.

(** The globals as initialized at lines 45-55; a GLFW window starts with
    the normal cursor. *)
Definition initial : Controls := mkControls axis_X true true true CURSOR_NORMAL.

(** Lines 390-397: the case [GLFW_KEY_SPACE]; [==] on [glm::vec3] compares
    the components with [==]. *)
Definition next_axis (rotationAxis : vec3) : vec3 :=
  if vec3_eqb rotationAxis axis_Y then axis_X
  else if vec3_eqb rotationAxis axis_X then axis_Z
  else axis_Y.

Section Handler.

Variable computeNormals : Off.OffModel -> Off.OffModel.

(** Lines 378-423; [pressed] is [action == GLFW_PRESS]. *)
Definition key_callback (key : Key) (pressed : bool) (st : Main.App * Controls)
  : Main.App * Controls :=
  let '(a, c) := st in
  if pressed then
    match key with
    | KEY_B => (Main.explode_view a, c)
    | KEY_R =>
      (a, mkControls (rotationAxis c) (negb (autoRotate c)) (showImGuiWindow c)
                     (captureMouse c) (cursor c))
    | KEY_SPACE =>
      (a, mkControls (next_axis (rotationAxis c)) (autoRotate c) (showImGuiWindow c)
                     (captureMouse c) (cursor c))
    | KEY_TAB =>
      let showImGuiWindow := negb (showImGuiWindow c) in
      let captureMouse := negb showImGuiWindow in
      (a, mkControls (rotationAxis c) (autoRotate c) showImGuiWindow captureMouse
                     (if captureMouse then CURSOR_DISABLED else CURSOR_NORMAL))
    | KEY_N => (Main.key_N computeNormals a, c)
    | KEY_other => (a, c)
    end
  else (a, c).

Definition press (keys : list Key) (st : Main.App * Controls) : Main.App * Controls :=
  foldl (fun st key => key_callback key true st) st keys.

End Handler.

End Keys.

(** After a press of TAB the mouse is captured exactly when the window of
    the controls is hidden, and the cursor is disabled exactly when the
    mouse is captured. *)
Definition mouse_follows_window (c : Keys.Controls) : Prop :=
  Keys.captureMouse c = negb (Keys.showImGuiWindow c)
  /\ Keys.cursor c = if Keys.captureMouse c then Keys.CURSOR_DISABLED else Keys.CURSOR_NORMAL.

Definition is_TAB (key : Keys.Key) : bool :=
  match key with Keys.KEY_TAB => true | _ => false end.

(** How many of the keys are TAB. *)
Definition tab_presses (keys : list Keys.Key) : nat :=
  length (List.filter is_TAB keys).

(** Three vertices on a line. *)
Definition collinear_face : Off.OffModel :=
  model_of [vertex_at F32.zero F32.zero F32.zero;
            vertex_at F32.one F32.zero F32.zero;
            vertex_at F32.two F32.zero F32.zero]
           [[0; 1; 2]].

(** The right triangle with legs [l] in the plane z = 0. *)
Definition right_triangle (l : float) : Off.OffModel :=
  model_of [vertex_at F32.zero F32.zero F32.zero;
            vertex_at l F32.zero F32.zero;
            vertex_at F32.zero l F32.zero]
           [[0; 1; 2]].

(** * Lemmas and theorems *)

Example lit_0_0001_is_nearest :
  F32.div (F32.of_int 1) (F32.of_int 10000) = F32.lit_0_0001.
Proof. vm_compute. reflexivity. Qed.

Example half_is_one_over_two : F32.div F32.one F32.two = F32.half.
Proof. vm_compute. reflexivity. Qed.

Example normalize_0_0_4 :
  glm.normalize (vec3_of_ints 0 0 4) = vec3_of_ints 0 0 1.
Proof. vm_compute. reflexivity. Qed.

Example length_3_4_0 : glm.length (vec3_of_ints 3 4 0) = F32.of_int 5.
Proof. vm_compute. reflexivity. Qed.

(** ** Loops *)

Lemma for_range_push {A : Type} (f : nat -> list A) (lo hi : nat) (acc : list A) :
  for_range lo hi (fun i acc => acc ++ f i) acc = acc ++ flat_map f (seq lo (hi - lo)).
Proof.
  unfold for_range. generalize (hi - lo)%nat as n. intros n.
  revert lo acc. induction n as [|n IH]; intros lo acc; simpl.
  - by rewrite app_nil_r.
  - rewrite IH. by rewrite <- app_assoc.
Qed.

Lemma for_range_invariant {S : Type} (P : S -> Prop) (lo hi : nat)
    (body : nat -> S -> S) (s : S) :
  P s ->
  (forall i s, (lo <= i < hi)%nat -> P s -> P (body i s)) ->
  P (for_range lo hi body s).
Proof.
  unfold for_range. intros Hs Hbody.
  assert (Hin : forall i, i ∈ seq lo (hi - lo) -> (lo <= i < hi)%nat).
  { intros i Hi. apply elem_of_seq in Hi. lia. }
  revert s Hs Hin. generalize (seq lo (hi - lo)) as l.
  induction l as [|i l IH]; intros s Hs Hin; simpl; [done|].
  apply IH.
  - apply Hbody; [apply Hin; left|done].
  - intros j Hj. apply Hin. by right.
Qed.

Lemma foldl_invariant {S E : Type} (P : S -> Prop) (f : S -> E -> S) (l : list E) (s : S) :
  P s -> (forall s e, P s -> P (f s e)) -> P (foldl f s l).
Proof.
  intros Hs Hf. revert s Hs. induction l as [|e l IH]; intros s Hs; simpl; auto.
Qed.

(** A loop that rewrites entry [i] at step [i] leaves the length alone and
    has rewritten exactly the entries of its range. *)
Lemma for_range_alter_length {A : Type} (g : nat -> A -> A) (lo hi : nat) (l : list A) :
  length (for_range lo hi (fun i l => alter (g i) i l) l) = length l.
Proof.
  apply (for_range_invariant (fun l' => length l' = length l)); [done|].
  intros i s _ Hs. by rewrite length_alter.
Qed.

Lemma foldl_alter_seq_lookup {A : Type} (g : nat -> A -> A) (lo n : nat)
    (l : list A) (k : nat) :
  foldl (fun acc i => alter (g i) i acc) l (seq lo n) !! k
  = if decide (lo <= k < lo + n)%nat then g k <$> l !! k else l !! k.
Proof.
  revert lo l. induction n as [|n IH]; intros lo l; simpl.
  - case_decide; [lia|done].
  - rewrite IH.
    destruct (decide (k = lo)) as [->|Hne].
    + rewrite list_lookup_alter_eq.
      repeat case_decide; try lia; done.
    + rewrite list_lookup_alter_ne by done.
      repeat case_decide; try lia; done.
Qed.

Lemma for_range_alter_lookup {A : Type} (g : nat -> A -> A) (lo hi : nat)
    (l : list A) (k : nat) :
  for_range lo hi (fun i l => alter (g i) i l) l !! k
  = if decide (lo <= k < hi)%nat then g k <$> l !! k else l !! k.
Proof.
  unfold for_range. rewrite foldl_alter_seq_lookup.
  repeat case_decide; try lia; done.
Qed.

Lemma triangles_flat_map {A : Type} (a b c : A -> Z) (l : list A) :
  triangles (flat_map (fun j => [a j; b j; c j]) l) = map (fun j => (a j, b j, c j)) l.
Proof. induction l as [|j l IH]; simpl; [done|]. by rewrite IH. Qed.

Lemma flat_map_length_const {A B : Type} (c : nat) (f : A -> list B) (l : list A) :
  (forall j, length (f j) = c) -> length (flat_map f l) = (c * length l)%nat.
Proof.
  intros Hf. induction l as [|j l IH]; simpl; [lia|].
  rewrite length_app, Hf, IH. lia.
Qed.

(** ** Triangulation *)

Lemma to_uint_id (n : Z) : 0 <= n < 2 ^ 31 -> to_uint n = n.
Proof. intros H. unfold to_uint. apply Z.mod_small. lia. Qed.

Lemma triangulate_push (polygon : Off.Polygon) (idx : list Z) :
  triangulate polygon idx
  = idx ++ flat_map (fun j => [to_uint (Off.v polygon !!! 0%nat);
                               to_uint (Off.v polygon !!! j);
                               to_uint (Off.v polygon !!! (j + 1)%nat)])
                    (seq 1 (Z.to_nat (Off.noSides polygon - 1) - 1)).
Proof. unfold triangulate. apply for_range_push. Qed.

Lemma triangulate_length (polygon : Off.Polygon) (idx : list Z) :
  length (triangulate polygon idx)
  = (length idx + 3 * (Z.to_nat (Off.noSides polygon - 1) - 1))%nat.
Proof.
  rewrite triangulate_push, length_app. f_equal.
  rewrite (flat_map_length_const 3) by done. by rewrite length_seq.
Qed.

(** C4. A polygon with vertex-index sequence v[0..n), n >= 3, is turned
    into exactly the n-2 triangles (v[0], v[i], v[i+1]), i = 1 .. n-2, in
    this order: a fan from vertex 0.  The function never looks at a
    coordinate, so nothing about convexity or planarity is checked. *)
Theorem C4_fan_triangulation (polygon : Off.Polygon) (n : nat) :
  Off.noSides polygon = Z.of_nat n ->
  length (Off.v polygon) = n ->
  (3 <= n)%nat ->
  Forall (fun i => 0 <= i < 2 ^ 31) (Off.v polygon) ->
  triangles (triangulate polygon [])
  = map (fun i => (Off.v polygon !!! 0%nat, Off.v polygon !!! i, Off.v polygon !!! (i + 1)%nat))
        (seq 1 (n - 2))
  /\ length (triangles (triangulate polygon [])) = (n - 2)%nat
  /\ length (triangulate polygon []) = (3 * (n - 2))%nat.
Proof.
  intros Hn Hlen H3 Hrange.
  assert (Hcount : (Z.to_nat (Off.noSides polygon - 1) - 1 = n - 2)%nat) by lia.
  assert (Htri : triangles (triangulate polygon [])
     = map (fun i => (Off.v polygon !!! 0%nat, Off.v polygon !!! i,
                      Off.v polygon !!! (i + 1)%nat)) (seq 1 (n - 2))).
  { rewrite triangulate_push, Hcount. simpl.
    rewrite (triangles_flat_map
               (fun _ => to_uint (Off.v polygon !!! 0%nat))
               (fun j => to_uint (Off.v polygon !!! j))
               (fun j => to_uint (Off.v polygon !!! (j + 1)%nat))).
    apply map_ext_in. intros j Hj. apply in_seq in Hj.
    assert (Hget : forall k, (k < n)%nat -> to_uint (Off.v polygon !!! k) = Off.v polygon !!! k).
    { intros k Hk. apply to_uint_id.
      destruct (lookup_lt_is_Some_2 (Off.v polygon) k) as [x Hx]; [lia|].
      rewrite (list_lookup_total_correct _ _ _ Hx).
      rewrite Forall_lookup in Hrange. exact (Hrange k x Hx). }
    rewrite !Hget by lia. done. }
  split; [exact Htri|]. split.
  - rewrite Htri, length_map, length_seq. done.
  - rewrite triangulate_length, Hcount. simpl. lia.
Qed.

(** A pentagon. *)
Lemma C4_fan_triangulation_witness :
  triangles (triangulate (Off.mkPolygon 5 [10; 11; 12; 13; 14]) [])
  = [(10, 11, 12); (10, 12, 13); (10, 13, 14)]
  /\ length (triangles (triangulate (Off.mkPolygon 5 [10; 11; 12; 13; 14]) [])) = 3%nat
  /\ length (triangulate (Off.mkPolygon 5 [10; 11; 12; 13; 14]) []) = 9%nat.
Proof.
  apply (C4_fan_triangulation (Off.mkPolygon 5 [10; 11; 12; 13; 14]) 5).
  - reflexivity.
  - reflexivity.
  - lia.
  - simpl. repeat constructor; lia.
Defined.

(** ** The index buffer *)

Lemma polygon_ok_spec (nv : Z) (p : Off.Polygon) :
  polygon_ok nv p = true ->
  Off.noSides p = Z.of_nat (length (Off.v p))
  /\ 3 <= Off.noSides p
  /\ Forall (fun i => 0 <= i < nv) (Off.v p).
Proof.
  unfold polygon_ok. rewrite !andb_true_iff. intros [[H1 H2] H3].
  split; [lia|]. split; [lia|].
  rewrite Forall_forall. intros i Hi.
  rewrite forallb_forall in H3. apply list_elem_of_In in Hi.
  specialize (H3 i Hi). rewrite andb_true_iff in H3. lia.
Qed.

Lemma loaded_model_spec (m : Off.OffModel) :
  loaded_model m = true ->
  Off.numberOfVertices m = Z.of_nat (length (Off.vertices m))
  /\ Off.numberOfVertices m < 2 ^ 31
  /\ Off.numberOfPolygons m = Z.of_nat (length (Off.polygons m))
  /\ Forall (fun p => polygon_ok (Off.numberOfVertices m) p = true) (Off.polygons m).
Proof.
  unfold loaded_model. rewrite !andb_true_iff. intros [[[H1 H2] H3] H4].
  repeat split; try lia.
  rewrite Forall_forall. intros p Hp. rewrite forallb_forall in H4.
  apply H4. by apply list_elem_of_In.
Qed.

(** Triangulating a well-formed polygon keeps the index vector a sequence
    of triples of valid indices. *)
Lemma triangulate_keeps_indices (nv : Z) (p : Off.Polygon) (idx : list Z) :
  nv < 2 ^ 31 ->
  polygon_ok nv p = true ->
  (length idx mod 3 = 0)%nat /\ Forall (fun i => 0 <= i < nv) idx ->
  (length (triangulate p idx) mod 3 = 0)%nat
  /\ Forall (fun i => 0 <= i < nv) (triangulate p idx).
Proof.
  intros Hnv Hp [Hmod Hall].
  destruct (polygon_ok_spec _ _ Hp) as (Hn & H3 & Hv).
  split.
  - rewrite triangulate_length.
    rewrite (Nat.mul_comm 3). rewrite Nat.Div0.mod_add. done.
  - rewrite triangulate_push. apply Forall_app. split; [done|].
    rewrite Forall_forall. intros i Hi.
    apply list_elem_of_In, in_flat_map in Hi. destruct Hi as (j & Hj & Hi).
    apply in_seq in Hj.
    assert (Hget : forall k, (k < length (Off.v p))%nat ->
                     0 <= to_uint (Off.v p !!! k) < nv).
    { intros k Hk.
      destruct (lookup_lt_is_Some_2 (Off.v p) k Hk) as [x Hx].
      rewrite (list_lookup_total_correct _ _ _ Hx).
      rewrite Forall_lookup in Hv. specialize (Hv k x Hx). simpl in Hv.
      rewrite to_uint_id by lia. done. }
    simpl in Hi. destruct Hi as [<-|[<-|[<-|[]]]]; apply Hget; lia.
Qed.

Lemma Mesh_indices_ok (m : Off.OffModel) :
  loaded_model m = true ->
  (length (Mesh_indices m) mod 3 = 0)%nat
  /\ Forall (fun i => 0 <= i < Off.numberOfVertices m) (Mesh_indices m).
Proof.
  intros Hm. destruct (loaded_model_spec m Hm) as (Hnv & Hint & Hnp & Hps).
  unfold Mesh_indices.
  apply (for_range_invariant
           (fun idx => (length idx mod 3 = 0)%nat
                       /\ Forall (fun i => 0 <= i < Off.numberOfVertices m) idx)).
  - split; [done|constructor].
  - intros i idx Hi Hidx.
    apply triangulate_keeps_indices; [done| |done].
    destruct (lookup_lt_is_Some_2 (Off.polygons m) i) as [p Hp]; [lia|].
    rewrite (list_lookup_total_correct _ _ _ Hp).
    rewrite Forall_lookup in Hps. exact (Hps i p Hp).
Qed.

Lemma Mesh_vertices_length (uninit : nat -> vec3) (m : Off.OffModel) :
  length (Mesh_vertices uninit m) = Z.to_nat (Off.numberOfVertices m).
Proof.
  unfold Mesh_vertices.
  rewrite (for_range_push (fun i => [_])). simpl.
  rewrite (flat_map_length_const 1) by done.
  rewrite length_seq. lia.
Qed.

Lemma accumulate_triangle_length (st : PassState) (t : Z * Z * Z) :
  length (fst (accumulate_triangle st t)) = length (fst st).
Proof.
  destruct st as [vs ovs], t as [[a b] c]. simpl.
  by rewrite !length_alter.
Qed.

Lemma accumulateNormals_length (idx : list Z) (st : PassState) :
  length (fst (accumulateNormals idx st)) = length (fst st).
Proof.
  destruct st as [vs ovs]. unfold accumulateNormals.
  apply (foldl_invariant (fun st' => length (fst st') = length (fst (vs, ovs)))).
  - simpl. by rewrite length_map.
  - intros s e Hs. by rewrite accumulate_triangle_length.
Qed.

Lemma normalize_vertex_length (i : nat) (st : PassState) :
  length (fst (normalize_vertex i st)) = length (fst st).
Proof.
  destruct st as [vs ovs]. unfold normalize_vertex.
  destruct (F32.gtb _ _); simpl; [by rewrite length_alter|done].
Qed.

Lemma normalizeNormals_length (st : PassState) :
  length (fst (normalizeNormals st)) = length (fst st).
Proof.
  unfold normalizeNormals.
  apply (for_range_invariant (fun st' => length (fst st') = length (fst st))); [done|].
  intros i s _ Hs. by rewrite normalize_vertex_length.
Qed.

Lemma calculateNormals_length (idx : list Z) (st : PassState) :
  length (fst (calculateNormals idx st)) = length (fst st).
Proof.
  unfold calculateNormals.
  by rewrite normalizeNormals_length, accumulateNormals_length.
Qed.

Lemma store_center_length (vs : list MeshVertex) (t : Z * Z * Z) :
  length (store_center vs t) = length vs.
Proof. destruct t as [[a b] c]. simpl. by rewrite !length_alter. Qed.

Lemma calculateFaceCenters_length (idx : list Z) (vs : list MeshVertex) :
  length (calculateFaceCenters idx vs) = length vs.
Proof.
  unfold calculateFaceCenters.
  apply (foldl_invariant (fun vs' => length vs' = length vs)); [done|].
  intros s e Hs. by rewrite store_center_length.
Qed.

Lemma Mesh_of_model_indices (uninit : nat -> vec3) (p : addr) (m : Off.OffModel) :
  indices (fst (Mesh_of_model uninit p m)) = Mesh_indices m.
Proof.
  unfold Mesh_of_model. destruct (calculateNormals _ _) as [vs ovs]. done.
Qed.

Lemma Mesh_of_model_vertices_length (uninit : nat -> vec3) (p : addr) (m : Off.OffModel) :
  length (vertices (fst (Mesh_of_model uninit p m))) = Z.to_nat (Off.numberOfVertices m).
Proof.
  unfold Mesh_of_model.
  destruct (calculateNormals _ _) as [vs ovs] eqn:Hcn. simpl.
  rewrite calculateFaceCenters_length.
  change vs with (fst (vs, ovs)). rewrite <- Hcn.
  rewrite calculateNormals_length. simpl. apply Mesh_vertices_length.
Qed.

Lemma Mesh_of_model_index_buffer_ok (uninit : nat -> vec3) (p : addr) (m : Off.OffModel) :
  loaded_model m = true -> index_buffer_ok (fst (Mesh_of_model uninit p m)).
Proof.
  intros Hm. destruct (Mesh_indices_ok m Hm) as [Hmod Hall].
  destruct (loaded_model_spec m Hm) as (Hnv & _).
  unfold index_buffer_ok.
  rewrite Mesh_of_model_indices, Mesh_of_model_vertices_length.
  split; [done|].
  eapply Forall_impl; [exact Hall|]. simpl. intros i Hi. lia.
Qed.

(** No event of the application writes to the mesh. *)
Lemma step_mesh (computeNormals : Off.OffModel -> Off.OffModel) (e : Main.Event) (a : Main.App) :
  Main.mesh (Main.step computeNormals e a) = Main.mesh a.
Proof.
  destruct e; simpl; try done.
  - unfold Main.frame. destruct (Main.explodeAnimation a); [|done].
    destruct (F32.gtb _ _); [done|]. destruct (F32.ltb _ _); done.
  - unfold Main.key_N. destruct (_ =? _)%N; done.
Qed.

Lemma run_mesh (computeNormals : Off.OffModel -> Off.OffModel) (es : list Main.Event) (a : Main.App) :
  Main.mesh (Main.run computeNormals es a) = Main.mesh a.
Proof.
  unfold Main.run.
  apply (foldl_invariant (fun a' => Main.mesh a' = Main.mesh a)); [done|].
  intros s e Hs. by rewrite step_mesh.
Qed.

Lemma startup_mesh (uninit : nat -> vec3) (p : addr) (w : World) (m : Off.OffModel) (a : Main.App) :
  heap w !! p = Some m ->
  Main.startup uninit p w = Some a ->
  Main.mesh a = fst (Mesh_of_model uninit p m).
Proof.
  intros Hm. unfold Main.startup. destruct (_ =? _)%N; [done|].
  rewrite Hm. destruct (Mesh_of_model uninit p m) as [mesh m'].
  intros [= <-]. done.
Qed.

(** C5. After a model that the loader accepts has been turned into a mesh,
    the length of the index buffer is a multiple of 3 and every entry is a
    valid index, below the number of vertices of the mesh; and this still
    holds after any sequence of events of the application (frames, slider
    moves, the explode button, a reset, the shutdown). *)
Theorem C5_index_buffer_invariant
    (computeNormals : Off.OffModel -> Off.OffModel) (uninit : nat -> vec3)
    (p : addr) (w : World) (m : Off.OffModel) (a : Main.App) (es : list Main.Event) :
  heap w !! p = Some m ->
  loaded_model m = true ->
  Main.startup uninit p w = Some a ->
  index_buffer_ok (Main.mesh a)
  /\ index_buffer_ok (Main.mesh (Main.run computeNormals es a)).
Proof.
  intros Hm Hok Hstart.
  rewrite run_mesh, (startup_mesh _ _ _ _ _ Hm Hstart).
  split; by apply Mesh_of_model_index_buffer_ok.
Qed.

(** The tetrahedron, started and then driven through an animation step, a
    slider move, a reset and the shutdown. *)
Lemma C5_index_buffer_invariant_witness :
  index_buffer_ok (Main.mesh tetrahedron_app)
  /\ index_buffer_ok
       (Main.mesh (Main.run clearNormals
                     [Main.ExplodeView; Main.Frame F32.half;
                      Main.SliderMoved F32.one; Main.KeyN; Main.Shutdown]
                     tetrahedron_app)).
Proof.
  apply (C5_index_buffer_invariant clearNormals (fun _ => vzero) 1%N
           (world_with 1%N tetrahedron) tetrahedron tetrahedron_app).
  - vm_compute. reflexivity.
  - vm_compute. reflexivity.
  - vm_compute. reflexivity.
Defined.

(** ** The normal pass *)

Lemma lookup_alter_eqb {A : Type} (f : A -> A) (i k : nat) (l : list A) :
  alter f i l !! k = (if (i =? k)%nat then f else id) <$> l !! k.
Proof.
  destruct (Nat.eqb_spec i k) as [->|Hne].
  - apply list_lookup_alter_eq.
  - rewrite list_lookup_alter_ne by done. by destruct (l !! k).
Qed.

Lemma accumulate_triangle_lookup (vs : list MeshVertex) (ovs : list Off.Vertex)
    (t : Z * Z * Z) (k : nat) :
  fst (accumulate_triangle (vs, ovs) t) !! k
  = Nat.iter (corners k t) (add_normal (faceNormal_of vs t)) <$> vs !! k.
Proof.
  destruct t as [[a b] c]. unfold accumulate_triangle, corners.
  cbn [fst]. rewrite !lookup_alter_eqb.
  generalize (faceNormal_of vs (a, b, c)) as n. intros n.
  destruct (vs !! k) as [v|]; [|done]. cbn [fmap option_fmap option_map].
  destruct (Z.to_nat a =? k)%nat, (Z.to_nat b =? k)%nat, (Z.to_nat c =? k)%nat; done.
Qed.

Lemma corners_not_incident (k : nat) (t : Z * Z * Z) :
  incident k t = false -> corners k t = 0%nat.
Proof.
  destruct t as [[a b] c]. unfold incident, corners.
  destruct (Z.to_nat a =? k)%nat, (Z.to_nat b =? k)%nat, (Z.to_nat c =? k)%nat; done.
Qed.

Lemma foldl_accumulate_unreferenced (ts : list (Z * Z * Z)) (st : PassState) (k : nat) :
  existsb (incident k) ts = false ->
  fst (foldl accumulate_triangle st ts) !! k = fst st !! k.
Proof.
  revert st. induction ts as [|t ts IH]; intros st Hex; simpl; [done|].
  simpl in Hex. apply orb_false_iff in Hex. destruct Hex as [Ht Hts].
  rewrite IH by done. destruct st as [vs ovs].
  rewrite accumulate_triangle_lookup, corners_not_incident by done.
  simpl. by destruct (vs !! k).
Qed.

(** A vertex that no triangle refers to comes out of the accumulation with
    the zero normal. *)
Lemma accumulateNormals_unreferenced (idx : list Z) (vs : list MeshVertex)
    (ovs : list Off.Vertex) (k : nat) :
  referenced k idx = false ->
  fst (accumulateNormals idx (vs, ovs)) !! k = set_normal vzero <$> vs !! k.
Proof.
  intros Href. unfold accumulateNormals.
  rewrite foldl_accumulate_unreferenced by done.
  simpl. apply list_lookup_fmap.
Qed.

Lemma normalize_vertex_fst (i : nat) (st : PassState) :
  fst (normalize_vertex i st) = alter normalized_or_kept i (fst st).
Proof.
  destruct st as [vs ovs]. unfold normalize_vertex. cbn [fst].
  apply list_eq. intros k. rewrite lookup_alter_eqb.
  destruct (Nat.eqb_spec i k) as [->|Hne].
  - rewrite list_lookup_total_alt.
    destruct (vs !! k) as [v|] eqn:Hv; cbn [from_option]; unfold id.
    + destruct (F32.gtb (glm.length (normal v)) F32.lit_0_0001) eqn:Hc; cbn [fst].
      * rewrite list_lookup_alter_eq, Hv. simpl.
        unfold normalized_or_kept. by rewrite Hc.
      * rewrite Hv. simpl. unfold normalized_or_kept. by rewrite Hc.
    + destruct (F32.gtb _ _); cbn [fst].
      * by rewrite list_lookup_alter_eq, Hv.
      * by rewrite Hv.
  - destruct (F32.gtb _ _); cbn [fst].
    + rewrite list_lookup_alter_ne by done. by destruct (vs !! k).
    + by destruct (vs !! k).
Qed.

Lemma for_range_fst {S T : Type} (body : nat -> S * T -> S * T) (body' : nat -> S -> S)
    (lo hi : nat) (st : S * T) :
  (forall i st, fst (body i st) = body' i (fst st)) ->
  fst (for_range lo hi body st) = for_range lo hi body' (fst st).
Proof.
  intros Hb. unfold for_range. generalize (seq lo (hi - lo)) as l. intros l.
  revert st. induction l as [|i l IH]; intros st; simpl; [done|].
  rewrite IH. by rewrite Hb.
Qed.

Lemma normalizeNormals_lookup (st : PassState) (k : nat) :
  fst (normalizeNormals st) !! k = normalized_or_kept <$> fst st !! k.
Proof.
  unfold normalizeNormals.
  rewrite (for_range_fst normalize_vertex (fun i vs => alter normalized_or_kept i vs))
    by apply normalize_vertex_fst.
  rewrite for_range_alter_lookup.
  case_decide as Hk; [done|].
  rewrite (lookup_ge_None_2 (fst st) k) by lia. done.
Qed.

Lemma length_of_zero : F32.gtb (glm.length vzero) F32.lit_0_0001 = false.
Proof. vm_compute. reflexivity. Qed.

(** ** Face centres *)

Lemma set_faceCenter_twice (c c' : vec3) (v : MeshVertex) :
  set_faceCenter c' (set_faceCenter c v) = set_faceCenter c' v.
Proof. done. Qed.

Lemma store_center_lookup (vs : list MeshVertex) (t : Z * Z * Z) (k : nat) :
  store_center vs t !! k
  = (if incident k t then set_faceCenter (center_of vs t) else id) <$> vs !! k.
Proof.
  destruct t as [[a b] c]. unfold store_center, incident.
  rewrite !lookup_alter_eqb.
  generalize (center_of vs (a, b, c)) as ctr. intros ctr.
  destruct (vs !! k) as [v|]; [|done]. cbn [fmap option_fmap option_map].
  destruct (Z.to_nat a =? k)%nat, (Z.to_nat b =? k)%nat, (Z.to_nat c =? k)%nat; done.
Qed.

Lemma store_center_position (vs : list MeshVertex) (t : Z * Z * Z) (i : nat) :
  position (store_center vs t !!! i) = position (vs !!! i).
Proof.
  rewrite !list_lookup_total_alt, store_center_lookup.
  destruct (vs !! i) as [v|]; [|done]. simpl.
  by destruct (incident i t).
Qed.

Lemma center_of_store_center (vs : list MeshVertex) (t t' : Z * Z * Z) :
  center_of (store_center vs t) t' = center_of vs t'.
Proof.
  destruct t' as [[a b] c]. unfold center_of.
  by rewrite !store_center_position.
Qed.

Lemma foldl_store_center_lookup (ts : list (Z * Z * Z)) (vs : list MeshVertex) (k : nat) :
  foldl store_center vs ts !! k
  = match last_incident k ts with
    | Some t => set_faceCenter (center_of vs t) <$> vs !! k
    | None => vs !! k
    end.
Proof.
  revert vs. induction ts as [|t ts IH]; intros vs; simpl; [done|].
  rewrite IH. destruct (last_incident k ts) as [t'|].
  - rewrite center_of_store_center, store_center_lookup.
    destruct (vs !! k) as [v|]; [|done]. simpl.
    by destruct (incident k t).
  - rewrite store_center_lookup. by destruct (incident k t), (vs !! k).
Qed.

(** C9 (amended). The face centre of a vertex is a single value per vertex:
    the centroid of the last triangle of the index buffer that refers to
    the vertex.  Every triangle overwrites the face centre of its three
    corners, so the earlier incident faces leave no trace; nothing is
    averaged.  A vertex no triangle refers to keeps what it had. *)
Theorem C9_face_center_of_last_triangle
    (idx : list Z) (vs : list MeshVertex) (k : nat) :
  calculateFaceCenters idx vs !! k
  = match last_incident k (triangles idx) with
    | Some (a, b, c) =>
      set_faceCenter
        (glm.divs (glm.add (glm.add (position (vs !!! Z.to_nat a))
                                    (position (vs !!! Z.to_nat b)))
                           (position (vs !!! Z.to_nat c)))
                  F32.three)
      <$> vs !! k
    | None => vs !! k
    end.
Proof.
  unfold calculateFaceCenters. rewrite foldl_store_center_lookup.
  destruct (last_incident k (triangles idx)) as [[[a b] c]|]; done.
Qed.

(** C9 as stated fails: in [two_faces] vertex 0 lies on the faces with
    centroids (1,1,0) and (0,1,1); its face centre is (0,1,1), the
    centroid of the second face, and not their mean (1/2, 1, 1/2). *)
Lemma C9_counterexample :
  let mesh := fst (Mesh_of_model (fun _ => vzero) 1%N two_faces) in
  let c1 := center_of (vertices mesh) (0, 1, 2) in
  let c2 := center_of (vertices mesh) (0, 2, 3) in
  let mean := glm.divs (glm.add c1 c2) F32.two in
  indices mesh = [0; 1; 2; 0; 2; 3]
  /\ c1 = vec3_of_ints 1 1 0
  /\ c2 = vec3_of_ints 0 1 1
  /\ mean = mkvec3 F32.half F32.one F32.half
  /\ faceCenter (vertices mesh !!! 0%nat) = c2
  /\ faceCenter (vertices mesh !!! 0%nat) <> mean.
Proof. vm_compute. repeat split; discriminate. Qed.

(** ** binary32: where NaN can and cannot come from *)

Section NoNaN.

Variables prec emax : Z.

Lemma shr_1_nonneg (mrs : shr_record) : 0 <= shr_m mrs -> 0 <= shr_m (shr_1 mrs).
Proof.
  destruct mrs as [m r s]. simpl.
  destruct m as [|p|p]; [done| |lia].
  destruct p; simpl; lia.
Qed.

Lemma iter_pos_shr_1_nonneg (n : positive) (mrs : shr_record) :
  0 <= shr_m mrs -> 0 <= shr_m (SpecFloat.iter_pos shr_1 n mrs).
Proof.
  revert mrs. induction n as [n IH|n IH|]; intros mrs H; simpl.
  - apply IH, IH, shr_1_nonneg, H.
  - apply IH, IH, H.
  - apply shr_1_nonneg, H.
Qed.

Lemma shr_fexp_nonneg (m e : Z) (l : location) :
  0 <= m -> 0 <= shr_m (fst (shr_fexp prec emax m e l)).
Proof.
  intros Hm. unfold shr_fexp, shr.
  assert (H0 : 0 <= shr_m (shr_record_of_loc m l)).
  { destruct l as [|[]]; simpl; lia. }
  destruct (fexp prec emax (Zdigits2 m + e) - e) as [|p|p]; simpl; try done.
  by apply iter_pos_shr_1_nonneg.
Qed.

Lemma round_nearest_even_nonneg (m : Z) (l : location) :
  0 <= m -> 0 <= round_nearest_even m l.
Proof.
  intros Hm. destruct l as [|[]]; simpl; try lia.
  destruct (Z.even m); lia.
Qed.

Lemma binary_round_aux_not_nan (sx : bool) (mx ex : Z) (lx : location) :
  0 <= mx -> F32.is_nan (binary_round_aux prec emax sx mx ex lx) = false.
Proof.
  intros Hm. unfold binary_round_aux.
  pose proof (shr_fexp_nonneg mx ex lx Hm) as H1.
  destruct (shr_fexp prec emax mx ex lx) as [mrs' e']. simpl in H1.
  pose proof (shr_fexp_nonneg
                (round_nearest_even (shr_m mrs') (loc_of_shr_record mrs')) e' loc_Exact
                (round_nearest_even_nonneg _ _ H1)) as H2.
  destruct (shr_fexp prec emax _ e' loc_Exact) as [mrs'' e'']. simpl in H2.
  destruct (shr_m mrs'') as [|p|p]; [done| |lia].
  by destruct (e'' <=? emax - prec).
Qed.

Lemma binary_normalize_not_nan (m e : Z) (szero : bool) :
  F32.is_nan (binary_normalize prec emax m e szero) = false.
Proof.
  destruct m as [|p|p]; simpl; [done| |];
    unfold binary_round; destruct (shl_align _ _ _) as [mz ez];
    by apply binary_round_aux_not_nan.
Qed.

End NoNaN.

Lemma add_not_nan (a b : float) :
  F32.is_finite a = true -> F32.is_nan b = false ->
  F32.is_nan (F32.add a b) = false.
Proof.
  destruct a as [sa|sa| |sa ma ea], b as [sb|sb| |sb mb eb]; try done; intros _ _.
  - simpl. by destruct sa, sb.
  - apply binary_normalize_not_nan.
Qed.

Lemma mul_finite_not_nan (a b : float) :
  F32.is_finite a = true -> F32.is_finite b = true ->
  F32.is_nan (F32.mul a b) = false.
Proof.
  destruct a as [sa|sa| |sa ma ea], b as [sb|sb| |sb mb eb]; try done; intros _ _.
  by apply binary_round_aux_not_nan.
Qed.

Lemma eqb_refl_finite (a : float) : F32.is_finite a = true -> F32.eqb a a = true.
Proof.
  destruct a as [s|s| |s m e]; try done. intros _.
  unfold F32.eqb, SFeqb, SFcompare.
  rewrite Z.compare_refl, Pos.compare_cont_refl. by destruct s.
Qed.

(** [a + d * 0] is [a] (up to the sign of a zero) as soon as [d] is
    finite, for a zero of either sign. *)
Lemma add_mul_zero (s : bool) (a d : float) :
  F32.is_finite a = true -> F32.is_finite d = true ->
  F32.eqb (F32.add a (F32.mul d (S754_zero s))) a = true.
Proof.
  destruct a as [sa|sa| |sa ma ea], d as [sd|sd| |sd md ed]; try done; intros _ _.
  - simpl. by destruct sa, sd, s.
  - simpl. by destruct sa, sd, s.
  - apply (eqb_refl_finite (S754_finite sa ma ea)). done.
  - apply (eqb_refl_finite (S754_finite sa ma ea)). done.
Qed.


(** ** The explosion *)

Lemma lookup_insert_eqb {A : Type} (x : A) (i k : nat) (l : list A) :
  <[i := x]> l !! k = (if (i =? k)%nat then (fun _ => x) else id) <$> l !! k.
Proof.
  destruct (Nat.eqb_spec i k) as [->|Hne].
  - destruct (l !! k) as [y|] eqn:Hy; simpl.
    + apply list_lookup_insert_eq. by eapply lookup_lt_Some.
    + rewrite list_insert_ge; [done|]. by apply lookup_ge_None.
  - rewrite list_lookup_insert_ne by done. by destruct (l !! k).
Qed.

Lemma foldl_insert_seq_lookup {A : Type} (g : nat -> A) (lo n : nat) (l : list A) (k : nat) :
  foldl (fun acc i => <[i := g i]> acc) l (seq lo n) !! k
  = if decide (lo <= k < lo + n)%nat then (fun _ => g k) <$> l !! k else l !! k.
Proof.
  revert lo l. induction n as [|n IH]; intros lo l; simpl.
  - case_decide; [lia|done].
  - rewrite IH, lookup_insert_eqb.
    destruct (Nat.eqb_spec lo k) as [->|Hne];
      repeat case_decide; try lia; by destruct (l !! k).
Qed.

Lemma for_range_lookup_total {A B : Type} `{!Inhabited A} (f : B -> A -> B) (l : list A) (b : B) :
  for_range 0 (length l) (fun i acc => f acc (l !!! i)) b = foldl f b l.
Proof.
  unfold for_range. rewrite Nat.sub_0_r.
  assert (H : forall (pre l' : list A) (b : B),
             foldl (fun acc i => f acc ((pre ++ l') !!! i)) b (seq (length pre) (length l'))
             = foldl f b l').
  { intros pre l'. revert pre. induction l' as [|a l' IH]; intros pre b'; simpl; [done|].
    rewrite list_lookup_total_middle by done.
    specialize (IH (pre ++ [a]) (f b' a)).
    rewrite length_app, <- app_assoc in IH. simpl in IH.
    rewrite Nat.add_1_r in IH. exact IH. }
  exact (H [] l b).
Qed.

Lemma snapshot_of_map (m : Off.OffModel) :
  Off.numberOfVertices m = Z.of_nat (length (Off.vertices m)) ->
  snapshot_of m
  = map (fun a => mkExplodedVertexData (Off.x a) (Off.y a) (Off.z a)) (Off.vertices m).
Proof.
  intros Hn. unfold snapshot_of, for_range. rewrite Hn, Nat2Z.id, Nat.sub_0_r.
  apply list_eq. intros k.
  rewrite foldl_insert_seq_lookup, list_lookup_fmap.
  destruct (Off.vertices m !! k) as [a|] eqn:Ha.
  - pose proof (lookup_lt_Some _ _ _ Ha) as Hk.
    rewrite decide_True by lia.
    rewrite lookup_replicate_2 by done. simpl.
    by rewrite (list_lookup_total_correct _ _ _ Ha).
  - pose proof (lookup_ge_None_1 _ _ Ha) as Hk.
    rewrite decide_False by lia.
    simpl. apply lookup_replicate_None. lia.
Qed.

Lemma snapshot_of_positions (m : Off.OffModel) :
  Off.numberOfVertices m = Z.of_nat (length (Off.vertices m)) ->
  map original (snapshot_of m) = Off.positions m.
Proof.
  intros Hn. rewrite snapshot_of_map by done. unfold Off.positions.
  rewrite map_map. done.
Qed.

Lemma pos_set_pos (p : vec3) (a : Off.Vertex) : Off.pos (Off.set_pos p a) = p.
Proof. by destruct p. Qed.

Lemma explosion_center_mean (snap : list ExplodedVertexData) :
  explosion_center (Z.of_nat (length snap)) snap
  = glm.divs (foldl glm.add (glm.vec3_splat F32.zero) (map original snap))
             (F32.of_int (Z.of_nat (length snap))).
Proof.
  unfold explosion_center. f_equal. rewrite Nat2Z.id.
  rewrite (for_range_lookup_total (fun c d => glm.add c (original d))).
  generalize (glm.vec3_splat F32.zero) as c. induction snap as [|d snap IH]; intros c; simpl; [done|].
  apply IH.
Qed.

(** After the second loop of [updateExplosion], vertex [i] sits at the
    exploded position of its snapshot entry. *)
Lemma explode_vertices_positions (n : Z) (snap : list ExplodedVertexData)
    (factor : float) (vs : list Off.Vertex) (i : nat) (base : ExplodedVertexData) :
  n = Z.of_nat (length vs) ->
  length snap = length vs ->
  snap !! i = Some base ->
  map Off.pos (explode_vertices n snap factor vs) !! i
  = Some (exploded_position (explosion_center n snap) (original base) factor).
Proof.
  intros Hn Hlen Hbase. unfold explode_vertices.
  rewrite list_lookup_fmap, for_range_alter_lookup.
  pose proof (lookup_lt_Some _ _ _ Hbase) as Hi.
  rewrite decide_True by lia.
  destruct (lookup_lt_is_Some_2 vs i) as [a Ha]; [lia|].
  rewrite Ha. simpl. rewrite pos_set_pos.
  by rewrite (list_lookup_total_correct _ _ _ Hbase).
Qed.

Lemma restore_vertices_positions (n : Z) (snap : list ExplodedVertexData)
    (vs : list Off.Vertex) :
  n = Z.of_nat (length vs) ->
  length snap = length vs ->
  map Off.pos (restore_vertices n snap vs) = map original snap.
Proof.
  intros Hn Hlen. unfold restore_vertices. apply list_eq. intros i.
  rewrite !list_lookup_fmap, for_range_alter_lookup.
  destruct (snap !! i) as [base|] eqn:Hbase.
  - pose proof (lookup_lt_Some _ _ _ Hbase) as Hi.
    rewrite decide_True by lia.
    destruct (lookup_lt_is_Some_2 vs i) as [a Ha]; [lia|].
    rewrite Ha. simpl. rewrite pos_set_pos.
    by rewrite (list_lookup_total_correct _ _ _ Hbase).
  - pose proof (lookup_ge_None_1 _ _ Hbase) as Hi.
    rewrite decide_False by lia.
    rewrite (lookup_ge_None_2 vs i) by lia. done.
Qed.

Lemma explode_vertices_length (n : Z) (snap : list ExplodedVertexData)
    (factor : float) (vs : list Off.Vertex) :
  length (explode_vertices n snap factor vs) = length vs.
Proof. unfold explode_vertices. apply for_range_alter_length. Qed.

Lemma positions_length (m : Off.OffModel) :
  length (Off.positions m) = length (Off.vertices m).
Proof. unfold Off.positions. apply length_map. Qed.

Lemma nullptr_eqb (model : addr) : model <> nullptr -> (model =? nullptr)%N = false.
Proof. intros H. by apply N.eqb_neq. Qed.

Lemma snapshot_of_length (m : Off.OffModel) :
  Off.numberOfVertices m = Z.of_nat (length (Off.vertices m)) ->
  length (snapshot_of m) = length (Off.vertices m).
Proof. intros Hn. rewrite snapshot_of_map by done. apply length_map. Qed.

(** [initializeExplosion] on a live model without a snapshot makes it
    initialized, with the snapshot of its current positions. *)
Lemma initializeExplosion_initialized (model : addr) (w : World) (m : Off.OffModel) :
  model <> nullptr ->
  heap w !! model = Some m ->
  explodedModels w !! model = None ->
  Off.numberOfVertices m = Z.of_nat (length (Off.vertices m)) ->
  initialized model m (snapshot_of m) (initializeExplosion model w).
Proof.
  intros Hnull Hm Hnone Hn. unfold initializeExplosion.
  rewrite nullptr_eqb, Hnone, Hm by done.
  repeat split; try done.
  - simpl. apply lookup_insert_eq.
  - by apply snapshot_of_length.
Qed.

(** [initializeExplosion] is idempotent. *)
Lemma initializeExplosion_twice (model : addr) (w : World) :
  initializeExplosion model (initializeExplosion model w) = initializeExplosion model w.
Proof.
  assert (Hhas : forall w0, is_Some (explodedModels w0 !! model) ->
                            initializeExplosion model w0 = w0).
  { intros w0 [snap Hsnap]. unfold initializeExplosion. rewrite Hsnap.
    by destruct (model =? nullptr)%N. }
  destruct (model =? nullptr)%N eqn:Hnull.
  { unfold initializeExplosion. by rewrite !Hnull. }
  destruct (explodedModels w !! model) as [snap|] eqn:Hsnap.
  { rewrite !(Hhas w); eauto. }
  destruct (heap w !! model) as [m|] eqn:Hm.
  - apply Hhas. unfold initializeExplosion. rewrite Hnull, Hsnap, Hm. simpl.
    rewrite lookup_insert_eq. eauto.
  - assert (Hw : initializeExplosion model w = w).
    { unfold initializeExplosion. by rewrite Hnull, Hsnap, Hm. }
    by rewrite !Hw.
Qed.

(** C8. [updateExplosion] on a live model that has no snapshot only
    initializes: the snapshot it stores holds the current position of
    every vertex, no model is modified (so no vertex moves), and the
    factor plays no part. *)
Theorem C8_first_update_initializes
    (computeNormals : Off.OffModel -> Off.OffModel)
    (model : addr) (factor : float) (w : World) (m : Off.OffModel) :
  model <> nullptr ->
  heap w !! model = Some m ->
  explodedModels w !! model = None ->
  Off.numberOfVertices m = Z.of_nat (length (Off.vertices m)) ->
  let w' := updateExplosion computeNormals model factor w in
  heap w' = heap w
  /\ explodedModels w' = <[model := snapshot_of m]> (explodedModels w)
  /\ map original (snapshot_of m) = Off.positions m
  /\ w' = initializeExplosion model w.
Proof.
  intros Hnull Hm Hnone Hn w'. subst w'.
  unfold updateExplosion, initializeExplosion.
  rewrite nullptr_eqb, Hnone, Hm by done. simpl.
  repeat split. by apply snapshot_of_positions.
Qed.

Lemma C8_first_update_initializes_witness :
  let w := world_with 1%N tetrahedron in
  let w' := updateExplosion clearNormals 1%N F32.one w in
  heap w' = heap w
  /\ explodedModels w' = <[1%N := snapshot_of tetrahedron]> (explodedModels w)
  /\ map original (snapshot_of tetrahedron) = Off.positions tetrahedron
  /\ w' = initializeExplosion 1%N w.
Proof.
  apply (C8_first_update_initializes clearNormals 1%N F32.one
           (world_with 1%N tetrahedron) tetrahedron).
  - discriminate.
  - vm_compute. reflexivity.
  - vm_compute. reflexivity.
  - vm_compute. reflexivity.
Defined.

Section ExplosionTheorems.

Variable computeNormals : Off.OffModel -> Off.OffModel.

(** What the theorems on [updateExplosion] and [resetExplosion] need of
    the normal pass of the model: it writes normals, not positions, and
    does not change the vertex count. *)
Hypothesis computeNormals_positions :
  forall m, Off.positions (computeNormals m) = Off.positions m
            /\ Off.numberOfVertices (computeNormals m) = Off.numberOfVertices m.

Lemma updateExplosion_initialized (model : addr) (factor : float) (w : World)
    (m : Off.OffModel) (snap : list ExplodedVertexData) :
  initialized model m snap w ->
  exists m',
    updateExplosion computeNormals model factor w = set_model model m' w
    /\ Off.positions m'
       = map Off.pos (explode_vertices (Off.numberOfVertices m) snap factor (Off.vertices m))
    /\ initialized model m' snap (set_model model m' w).
Proof.
  intros (Hnull & Hm & Hsnap & Hn & Hlen).
  eexists. unfold updateExplosion. rewrite nullptr_eqb, Hsnap, Hm by done.
  split; [reflexivity|].
  set (m1 := computeNormals _).
  destruct (computeNormals_positions
              (Off.set_vertices
                 (explode_vertices (Off.numberOfVertices m) snap factor (Off.vertices m)) m))
    as [Hpos Hcount].
  fold m1 in Hpos, Hcount. simpl in Hpos, Hcount.
  assert (Hlen1 : length (Off.vertices m1) = length (Off.vertices m)).
  { rewrite <- (positions_length m1), Hpos.
    unfold Off.positions. simpl. by rewrite length_map, explode_vertices_length. }
  split; [exact Hpos|].
  repeat split; try done.
  - simpl. apply lookup_insert_eq.
  - by rewrite Hcount, Hlen1.
  - by rewrite Hlen1.
Qed.

Lemma resetExplosion_initialized (model : addr) (w : World)
    (m : Off.OffModel) (snap : list ExplodedVertexData) :
  initialized model m snap w ->
  exists m',
    resetExplosion computeNormals model w = set_model model m' w
    /\ Off.positions m' = map original snap.
Proof.
  intros (Hnull & Hm & Hsnap & Hn & Hlen).
  eexists. unfold resetExplosion. rewrite nullptr_eqb, Hsnap, Hm by done.
  split; [reflexivity|].
  destruct (computeNormals_positions
              (Off.set_vertices
                 (restore_vertices (Off.numberOfVertices m) snap (Off.vertices m)) m))
    as [Hpos _].
  rewrite Hpos. unfold Off.positions. simpl.
  by apply restore_vertices_positions.
Qed.

(** C7. On an initialized model, [updateExplosion] (with the factor 1.0 or
    any other) followed by [resetExplosion] leaves the position of every
    vertex equal, exactly, to the coordinates held by the snapshot, and
    the snapshot itself is untouched.  [resetExplosion] on a model without
    a snapshot changes nothing. *)
Theorem C7_update_then_reset_restores (model : addr) (factor : float) (w : World)
    (m : Off.OffModel) (snap : list ExplodedVertexData) :
  initialized model m snap w ->
  let w2 := resetExplosion computeNormals model
              (updateExplosion computeNormals model factor w) in
  (exists m2, heap w2 !! model = Some m2 /\ Off.positions m2 = map original snap)
  /\ explodedModels w2 = explodedModels w
  /\ (forall (p : addr) (w0 : World),
        explodedModels w0 !! p = None -> resetExplosion computeNormals p w0 = w0).
Proof.
  intros Hinit w2. subst w2.
  destruct (updateExplosion_initialized model factor w m snap Hinit)
    as (m1 & -> & _ & Hinit1).
  destruct (resetExplosion_initialized model _ m1 snap Hinit1) as (m2 & -> & Hpos).
  split; [|split].
  - exists m2. split; [|done]. simpl. apply lookup_insert_eq.
  - done.
  - intros p w0 Hnone. unfold resetExplosion. rewrite Hnone.
    by destruct (p =? nullptr)%N.
Qed.

(** C1 (amended). On an initialized model, [updateExplosion] puts every
    vertex at baseline + d * factor, where the origin is the unweighted
    mean of the snapshot baselines (their sum, added up in order, divided
    by their number) and d is normalize(baseline - origin) when the length
    of baseline - origin is above 0.0001, and the fixed direction (0,1,0)
    otherwise.  A baseline that coincides with the origin is in the second
    case, as is every baseline within 0.0001 of it.  In the second case
    nothing is divided, and the new position has no NaN coordinate when
    the baseline and the factor are finite. *)
Theorem C1_explosion_displacement (model : addr) (factor : float) (w : World)
    (m : Off.OffModel) (snap : list ExplodedVertexData) :
  initialized model m snap w ->
  let origin :=
    glm.divs (foldl glm.add (glm.vec3_splat F32.zero) (map original snap))
             (F32.of_int (Z.of_nat (length snap))) in
  let w' := updateExplosion computeNormals model factor w in
  exists m',
    heap w' !! model = Some m'
    /\ length (Off.positions m') = length snap
    /\ forall (i : nat) (base : ExplodedVertexData),
         snap !! i = Some base ->
         let d := glm.sub (original base) origin in
         let far := F32.gtb (glm.length d) F32.lit_0_0001 in
         Off.positions m' !! i
         = Some (glm.add (original base)
                   (glm.scale (if far then glm.normalize d
                               else mkvec3 F32.zero F32.one F32.zero)
                              factor))
         /\ (original base = origin -> far = false)
         /\ (far = false ->
             vec3_finite (original base) = true ->
             F32.is_finite factor = true ->
             vec3_has_nan (glm.add (original base)
                             (glm.scale (mkvec3 F32.zero F32.one F32.zero) factor))
             = false).
Proof.
  intros Hinit origin w'. subst w'.
  destruct (updateExplosion_initialized model factor w m snap Hinit)
    as (m1 & -> & Hpos & Hinit1).
  destruct Hinit as (Hnull & Hm & Hsnap & Hn & Hlen).
  exists m1. split; [simpl; apply lookup_insert_eq|].
  split.
  { rewrite Hpos, length_map, explode_vertices_length. done. }
  intros i base Hbase d far.
  split; [|split].
  - rewrite Hpos.
    rewrite (explode_vertices_positions _ _ _ _ i base Hn Hlen Hbase).
    rewrite Hn, <- Hlen, explosion_center_mean. done.
  - intros Heq. subst far d. rewrite Heq.
    clear. generalize origin as o. clear. intros [ox oy oz].
    unfold glm.sub; cbn [vx vy vz].
    assert (Hsub : forall a, F32.sub a a = S754_zero false \/ F32.sub a a = S754_nan).
    { intros [s|s| |s ma ea]; simpl.
      - left. by destruct s.
      - right. by destruct s.
      - by right.
      - left. unfold F32.sub, SFsub. rewrite Z.sub_diag. done. }
    destruct (Hsub ox) as [-> | ->], (Hsub oy) as [-> | ->], (Hsub oz) as [-> | ->];
      vm_compute; reflexivity.
  - intros _ Hfin Hfac.
    unfold vec3_finite in Hfin. rewrite !andb_true_iff in Hfin.
    destruct Hfin as [[Hx Hy] Hz].
    unfold vec3_has_nan, glm.add, glm.scale. cbn [vx vy vz].
    rewrite !add_not_nan; try done; apply mul_finite_not_nan; done.
Qed.

End ExplosionTheorems.

Lemma clearNormals_positions (m : Off.OffModel) :
  Off.positions (clearNormals m) = Off.positions m
  /\ Off.numberOfVertices (clearNormals m) = Off.numberOfVertices m.
Proof.
  split; [|done]. unfold clearNormals, Off.positions. simpl.
  rewrite map_map. done.
Qed.

(** The tetrahedron, exploded by the factor 1.0 and reset. *)
Lemma C7_update_then_reset_restores_witness :
  let w := initializeExplosion 1%N (world_with 1%N tetrahedron) in
  let w2 := resetExplosion clearNormals 1%N (updateExplosion clearNormals 1%N F32.one w) in
  (exists m2, heap w2 !! 1%N = Some m2
              /\ Off.positions m2 = map original (snapshot_of tetrahedron))
  /\ explodedModels w2 = explodedModels w
  /\ (forall (p : addr) (w0 : World),
        explodedModels w0 !! p = None -> resetExplosion clearNormals p w0 = w0).
Proof.
  apply (C7_update_then_reset_restores clearNormals clearNormals_positions 1%N F32.one
           (initializeExplosion 1%N (world_with 1%N tetrahedron))
           tetrahedron (snapshot_of tetrahedron)).
  repeat split; first [discriminate | vm_compute; reflexivity].
Defined.

(** The small square, exploded by the factor 1.0. *)
Lemma C1_explosion_displacement_witness :
  let w := initializeExplosion 1%N (world_with 1%N tiny_square) in
  let snap := snapshot_of tiny_square in
  let origin :=
    glm.divs (foldl glm.add (glm.vec3_splat F32.zero) (map original snap))
             (F32.of_int (Z.of_nat (length snap))) in
  let w' := updateExplosion clearNormals 1%N F32.one w in
  exists m',
    heap w' !! 1%N = Some m'
    /\ length (Off.positions m') = length snap
    /\ forall (i : nat) (base : ExplodedVertexData),
         snap !! i = Some base ->
         let d := glm.sub (original base) origin in
         let far := F32.gtb (glm.length d) F32.lit_0_0001 in
         Off.positions m' !! i
         = Some (glm.add (original base)
                   (glm.scale (if far then glm.normalize d
                               else mkvec3 F32.zero F32.one F32.zero)
                              F32.one))
         /\ (original base = origin -> far = false)
         /\ (far = false ->
             vec3_finite (original base) = true ->
             F32.is_finite F32.one = true ->
             vec3_has_nan (glm.add (original base)
                             (glm.scale (mkvec3 F32.zero F32.one F32.zero) F32.one))
             = false).
Proof.
  apply (C1_explosion_displacement clearNormals clearNormals_positions 1%N F32.one
           (initializeExplosion 1%N (world_with 1%N tiny_square))
           tiny_square (snapshot_of tiny_square)).
  repeat split; first [discriminate | vm_compute; reflexivity].
Defined.

(** C1 as stated fails: vertex 0 of the small square has the baseline
    (2^-15, 0, 0), which is not the origin (0, 0, 0), the mean of the four
    baselines.  With the factor 1.0 the formula of the claim puts it at
    (1 + 2^-15, 0, 0); [updateExplosion] puts it at (2^-15, 1, 0), moved
    along (0,1,0), because its distance to the origin is below 0.0001. *)
Lemma C1_counterexample :
  let w := initializeExplosion 1%N (world_with 1%N tiny_square) in
  let w' := updateExplosion clearNormals 1%N F32.one w in
  let snap := snapshot_of tiny_square in
  let origin :=
    glm.divs (foldl glm.add (glm.vec3_splat F32.zero) (map original snap))
             (F32.of_int (Z.of_nat (length snap))) in
  let base := original (snap !!! 0%nat) in
  explodedModels w !! 1%N = Some snap
  /\ origin = vzero
  /\ base = mkvec3 (F32.pow2 (-15)) F32.zero F32.zero
  /\ vec3_eqb base origin = false
  /\ glm.add base (glm.scale (glm.normalize (glm.sub base origin)) F32.one)
     = mkvec3 (F32.add F32.one (F32.pow2 (-15))) F32.zero F32.zero
  /\ (heap w' !! 1%N) ≫= (fun m => Off.positions m !! 0%nat)
     = Some (mkvec3 (F32.pow2 (-15)) F32.one F32.zero)
  /\ (heap w' !! 1%N) ≫= (fun m => Off.positions m !! 0%nat)
     <> Some (glm.add base (glm.scale (glm.normalize (glm.sub base origin)) F32.one)).
Proof. vm_compute. repeat split; discriminate. Qed.

(** ** What is drawn *)



Example tetrahedron_app_started :
  Main.startup (fun _ => vzero) 1%N (world_with 1%N tetrahedron) = Some tetrahedron_app.
Proof. vm_compute. reflexivity. Qed.

(** C3 fails on the code.  For the tetrahedron, the array buffer holds the
    positions of the model after the start.  A slider move to 1.0, or an
    animation frame, runs [updateExplosion], which moves the vertices of
    the model; the vertex vector of the mesh and the array buffer stay as
    they were, so what is buffered no longer matches the model. *)
Theorem C3_render_buffer_stale :
  let a := tetrahedron_app in
  let a1 := Main.run clearNormals [Main.SliderMoved F32.one] a in
  let a2 := Main.run clearNormals [Main.ExplodeView; Main.Frame F32.half] a in
  Main.model_positions a = Some (Main.buffered_positions a)
  /\ Main.model_positions a = Some (map position (vertices (Main.mesh a)))
  /\ Main.gl a1 = Main.gl a /\ Main.mesh a1 = Main.mesh a
  /\ Main.gl a2 = Main.gl a /\ Main.mesh a2 = Main.mesh a
  /\ Main.model_positions a1 <> Some (Main.buffered_positions a1)
  /\ Main.model_positions a1 <> Some (map position (vertices (Main.mesh a1)))
  /\ Main.model_positions a2 <> Some (Main.buffered_positions a2)
  /\ Main.model_positions a2 <> Some (map position (vertices (Main.mesh a2))).
Proof. vm_compute. repeat split; discriminate. Qed.

(** [updateBuffers] uploads from the vertex vector of the mesh, which no
    event has touched: called after the slider move, it would store what
    [setupMesh] stored (cut down to [sizeof(Vertex)] bytes per vertex). *)
Example updateBuffers_uploads_stale_vertices :
  let a1 := Main.run clearNormals [Main.SliderMoved F32.one] tetrahedron_app in
  array_buffer (updateBuffers (Main.mesh a1) (Main.gl a1))
  = take 28 (array_buffer (Main.gl tetrahedron_app)).
Proof. vm_compute. reflexivity. Qed.




Example shader_moves_the_vertex :
  Shader.explodedPos (vec3_of_ints 1 2 3) (vec3_of_ints 0 1 1) F32.half
  = mkvec3 (F32.div (F32.of_int 3) F32.two) (F32.div (F32.of_int 5) F32.two) (F32.of_int 4).
Proof. vm_compute. reflexivity. Qed.

(** Outside the second case the guard does not keep NaN away: the sum of
    the two baselines of [huge_pair] overflows, the centre is infinite,
    and both vertices end up with a NaN coordinate. *)
Example explosion_overflow_nan :
  let w := initializeExplosion 1%N (world_with 1%N huge_pair) in
  let w' := updateExplosion clearNormals 1%N F32.one w in
  (vec3_has_nan <$> ((heap w' !! 1%N) ≫= (fun m => Off.positions m !! 0%nat))) = Some true.
Proof. vm_compute. reflexivity. Qed.

(** ** More on [explosion_effect.h] *)

Lemma initializeExplosion_snapshot (model q : addr) (snap : list ExplodedVertexData) (w : World) :
  explodedModels w !! model = Some snap ->
  explodedModels (initializeExplosion q w) !! model = Some snap.
Proof.
  intros Hsnap. unfold initializeExplosion.
  destruct (q =? nullptr)%N; [done|].
  destruct (explodedModels w !! q) as [sq|] eqn:Hq; [done|].
  destruct (heap w !! q) as [mq|]; [|done].
  simpl. rewrite lookup_insert_ne; [done|]. intros ->. congruence.
Qed.

Lemma do_call_snapshot (computeNormals : Off.OffModel -> Off.OffModel)
    (model : addr) (snap : list ExplodedVertexData) (c : ExplosionCall) (w : World) :
  explodedModels w !! model = Some snap ->
  spares model c = true ->
  explodedModels (do_call computeNormals c w) !! model = Some snap.
Proof.
  intros Hsnap Hsp. destruct c as [q|q f|q|q|]; simpl in *.
  - by apply initializeExplosion_snapshot.
  - unfold updateExplosion. destruct (q =? nullptr)%N; [done|].
    destruct (explodedModels w !! q) as [sq|] eqn:Hq.
    + by destruct (heap w !! q).
    + by apply initializeExplosion_snapshot.
  - unfold resetExplosion. destruct (q =? nullptr)%N; [done|].
    destruct (explodedModels w !! q) as [sq|]; [|done].
    by destruct (heap w !! q).
  - apply negb_true_iff, N.eqb_neq in Hsp.
    by rewrite lookup_delete_ne.
  - done.
Qed.

(** X1. A snapshot, once taken, is the baseline for good: no sequence of
    initialize, update and reset calls, on this model or on any other, and
    no cleanup of another model, changes it.  Only the cleanup of the
    model itself, or of all models, removes it. *)
Theorem X1_snapshot_is_immutable (computeNormals : Off.OffModel -> Off.OffModel)
    (model : addr) (snap : list ExplodedVertexData)
    (cs : list ExplosionCall) (w : World) :
  explodedModels w !! model = Some snap ->
  forallb (spares model) cs = true ->
  explodedModels (do_calls computeNormals cs w) !! model = Some snap.
Proof.
  intros Hsnap Hcs. unfold do_calls. revert w Hsnap.
  induction cs as [|c cs IH]; intros w Hsnap; simpl; [done|].
  simpl in Hcs. apply andb_true_iff in Hcs. destruct Hcs as [Hc Hcs].
  apply IH; [done|]. by apply do_call_snapshot.
Qed.

Lemma X1_snapshot_is_immutable_witness :
  let w := initializeExplosion 1%N (world_with 1%N tetrahedron) in
  explodedModels
    (do_calls clearNormals
       [CallUpdate 1%N F32.one; CallInitialize 1%N; CallUpdate 1%N F32.half;
        CallCleanup 2%N; CallReset 1%N; CallUpdate 2%N F32.one]
       w) !! 1%N
  = Some (snapshot_of tetrahedron).
Proof.
  apply (X1_snapshot_is_immutable clearNormals 1%N (snapshot_of tetrahedron)).
  - vm_compute. reflexivity.
  - vm_compute. reflexivity.
Defined.

Lemma do_call_local (computeNormals : Off.OffModel -> Off.OffModel)
    (c : ExplosionCall) (p q : addr) (w : World) :
  target c = Some p ->
  p <> q ->
  heap (do_call computeNormals c w) !! q = heap w !! q
  /\ explodedModels (do_call computeNormals c w) !! q = explodedModels w !! q.
Proof.
  intros Ht Hne.
  destruct c as [p'|p' f|p'|p'|]; simpl in Ht; try done; injection Ht as ->; simpl.
  - unfold initializeExplosion. destruct (p =? nullptr)%N; [done|].
    destruct (explodedModels w !! p); [done|].
    destruct (heap w !! p); [|done]. simpl. by rewrite lookup_insert_ne.
  - unfold updateExplosion, initializeExplosion. destruct (p =? nullptr)%N; [done|].
    destruct (explodedModels w !! p).
    + destruct (heap w !! p); [|done]. simpl. by rewrite lookup_insert_ne.
    + destruct (heap w !! p); [|done]. simpl. by rewrite lookup_insert_ne.
  - unfold resetExplosion. destruct (p =? nullptr)%N; [done|].
    destruct (explodedModels w !! p); [|done].
    destruct (heap w !! p); [|done]. simpl. by rewrite lookup_insert_ne.
  - by rewrite lookup_delete_ne.
Qed.

(** X2. A call on one model touches neither another model nor another
    model's snapshot. *)
Theorem X2_calls_are_local (computeNormals : Off.OffModel -> Off.OffModel)
    (c : ExplosionCall) (p q : addr) (w : World) :
  target c = Some p ->
  p <> q ->
  heap (do_call computeNormals c w) !! q = heap w !! q
  /\ explodedModels (do_call computeNormals c w) !! q = explodedModels w !! q.
Proof. apply do_call_local. Qed.

Lemma X2_calls_are_local_witness :
  let w := initializeExplosion 2%N (initializeExplosion 1%N two_models) in
  heap (do_call clearNormals (CallUpdate 1%N F32.one) w) !! 2%N = heap w !! 2%N
  /\ explodedModels (do_call clearNormals (CallUpdate 1%N F32.one) w) !! 2%N
     = explodedModels w !! 2%N.
Proof.
  apply (X2_calls_are_local clearNormals (CallUpdate 1%N F32.one) 1%N 2%N).
  - reflexivity.
  - discriminate.
Defined.

Lemma restore_vertices_length (n : Z) (snap : list ExplodedVertexData) (vs : list Off.Vertex) :
  length (restore_vertices n snap vs) = length vs.
Proof. unfold restore_vertices. apply for_range_alter_length. Qed.

Lemma explode_vertices_all_positions (n : Z) (snap : list ExplodedVertexData)
    (factor : float) (vs : list Off.Vertex) :
  n = Z.of_nat (length vs) ->
  length snap = length vs ->
  map Off.pos (explode_vertices n snap factor vs)
  = map (fun base => exploded_position (explosion_center n snap) (original base) factor) snap.
Proof.
  intros Hn Hlen. apply list_eq. intros i.
  destruct (snap !! i) as [base|] eqn:Hbase.
  - rewrite (explode_vertices_positions _ _ _ _ i base Hn Hlen Hbase).
    by rewrite list_lookup_fmap, Hbase.
  - rewrite !list_lookup_fmap, Hbase.
    pose proof (lookup_ge_None_1 _ _ Hbase) as Hi.
    rewrite (lookup_ge_None_2 (explode_vertices n snap factor vs) i); [done|].
    rewrite explode_vertices_length. lia.
Qed.

Section ExplosionHistory.

Variable computeNormals : Off.OffModel -> Off.OffModel.

Hypothesis computeNormals_positions :
  forall m, Off.positions (computeNormals m) = Off.positions m
            /\ Off.numberOfVertices (computeNormals m) = Off.numberOfVertices m.

Lemma update_keeps_initialized (model : addr) (factor : float) (w : World)
    (m : Off.OffModel) (snap : list ExplodedVertexData) :
  initialized model m snap w ->
  exists m',
    initialized model m' snap (updateExplosion computeNormals model factor w)
    /\ Off.positions m'
       = map (fun base => exploded_position
                            (explosion_center (Z.of_nat (length snap)) snap)
                            (original base) factor) snap.
Proof.
  intros Hinit.
  destruct (updateExplosion_initialized computeNormals computeNormals_positions
              model factor w m snap Hinit) as (m' & -> & Hpos & Hinit').
  destruct Hinit as (_ & _ & _ & Hn & Hlen).
  exists m'. split; [done|].
  rewrite Hpos, explode_vertices_all_positions by done.
  by rewrite Hn, <- Hlen.
Qed.

Lemma reset_keeps_initialized (model : addr) (w : World)
    (m : Off.OffModel) (snap : list ExplodedVertexData) :
  initialized model m snap w ->
  exists m',
    initialized model m' snap (resetExplosion computeNormals model w)
    /\ Off.positions m' = map original snap.
Proof.
  intros (Hnull & Hm & Hsnap & Hn & Hlen).
  unfold resetExplosion. rewrite nullptr_eqb, Hsnap, Hm by done.
  set (m1 := computeNormals _). exists m1.
  destruct (computeNormals_positions
              (Off.set_vertices
                 (restore_vertices (Off.numberOfVertices m) snap (Off.vertices m)) m))
    as [Hpos Hcount].
  fold m1 in Hpos, Hcount. simpl in Hpos, Hcount.
  assert (Hlen1 : length (Off.vertices m1) = length (Off.vertices m)).
  { rewrite <- (positions_length m1), Hpos.
    unfold Off.positions. simpl. by rewrite length_map, restore_vertices_length. }
  split.
  - repeat split; try done.
    + simpl. apply lookup_insert_eq.
    + by rewrite Hcount, Hlen1.
    + by rewrite Hlen1.
  - rewrite Hpos. unfold Off.positions. simpl.
    by apply restore_vertices_positions.
Qed.

Lemma do_call_keeps_initialized (model : addr) (c : ExplosionCall) (w : World)
    (m : Off.OffModel) (snap : list ExplodedVertexData) :
  initialized model m snap w ->
  spares model c = true ->
  exists m', initialized model m' snap (do_call computeNormals c w).
Proof.
  intros Hinit Hsp.
  destruct (decide (target c = Some model)) as [Ht|Ht].
  - destruct c as [q|q f|q|q|]; simpl in Ht; try done; injection Ht as ->; simpl.
    + exists m. destruct Hinit as (Hnull & Hm & Hsnap & Hn & Hlen).
      unfold initializeExplosion. rewrite nullptr_eqb, Hsnap by done.
      by repeat split.
    + destruct (update_keeps_initialized model f w m snap Hinit) as (m' & H & _).
      by exists m'.
    + destruct (reset_keeps_initialized model w m snap Hinit) as (m' & H & _).
      by exists m'.
    + simpl in Hsp. by rewrite N.eqb_refl in Hsp.
  - exists m. destruct Hinit as (Hnull & Hm & Hsnap & Hn & Hlen).
    assert (Hsnap' := do_call_snapshot computeNormals model snap c w Hsnap Hsp).
    destruct (target c) as [q|] eqn:Hq.
    + destruct (do_call_local computeNormals c q model w Hq) as [Hh _]; [congruence|].
      repeat split; try done; by rewrite Hh.
    + by destruct c.
Qed.

End ExplosionHistory.

Section ExplosionComposition.

Variable computeNormals : Off.OffModel -> Off.OffModel.

Hypothesis computeNormals_positions :
  forall m, Off.positions (computeNormals m) = Off.positions m
            /\ Off.numberOfVertices (computeNormals m) = Off.numberOfVertices m.

Lemma do_calls_keep_initialized (model : addr) (cs : list ExplosionCall) (w : World)
    (m : Off.OffModel) (snap : list ExplodedVertexData) :
  initialized model m snap w ->
  forallb (spares model) cs = true ->
  exists m', initialized model m' snap (do_calls computeNormals cs w).
Proof.
  unfold do_calls. revert w m.
  induction cs as [|c cs IH]; intros w m Hinit Hcs; simpl; [by exists m|].
  simpl in Hcs. apply andb_true_iff in Hcs. destruct Hcs as [Hc Hcs].
  destruct (do_call_keeps_initialized computeNormals computeNormals_positions
              model c w m snap Hinit Hc) as (m1 & Hinit1).
  by apply (IH _ m1).
Qed.

Lemma positions_after_update (model : addr) (factor : float) (w : World)
    (m : Off.OffModel) (snap : list ExplodedVertexData) :
  initialized model m snap w ->
  Off.positions <$> heap (updateExplosion computeNormals model factor w) !! model
  = Some (map (fun base => exploded_position
                             (explosion_center (Z.of_nat (length snap)) snap)
                             (original base) factor) snap).
Proof.
  intros Hinit.
  destruct (update_keeps_initialized computeNormals computeNormals_positions
              model factor w m snap Hinit) as (m' & (_ & Hm' & _) & Hpos).
  by rewrite Hm', <- Hpos.
Qed.

Lemma positions_after_reset (model : addr) (w : World)
    (m : Off.OffModel) (snap : list ExplodedVertexData) :
  initialized model m snap w ->
  Off.positions <$> heap (resetExplosion computeNormals model w) !! model
  = Some (map original snap).
Proof.
  intros Hinit.
  destruct (reset_keeps_initialized computeNormals computeNormals_positions
              model w m snap Hinit) as (m' & (_ & Hm' & _) & Hpos).
  by rewrite Hm', <- Hpos.
Qed.

(** X3. Where [updateExplosion] puts the vertices depends on the snapshot
    and on the factor only: whatever updates, resets and initializations
    came before (and whatever was done to other models), the same factor
    gives the same positions.  Displacements do not add up. *)
Theorem X3_update_forgets_history (model : addr) (factor : float)
    (cs : list ExplosionCall) (w : World)
    (m : Off.OffModel) (snap : list ExplodedVertexData) :
  initialized model m snap w ->
  forallb (spares model) cs = true ->
  Off.positions
    <$> heap (updateExplosion computeNormals model factor (do_calls computeNormals cs w)) !! model
  = Off.positions <$> heap (updateExplosion computeNormals model factor w) !! model.
Proof.
  intros Hinit Hcs.
  destruct (do_calls_keep_initialized model cs w m snap Hinit Hcs) as (m1 & Hinit1).
  by rewrite (positions_after_update _ _ _ m1 snap Hinit1),
             (positions_after_update _ _ _ m snap Hinit).
Qed.

(** X4. On an initialized model, [resetExplosion] puts every vertex back
    on its snapshot coordinates after any sequence of updates, resets and
    initializations, exactly. *)
Theorem X4_reset_after_any_history (model : addr)
    (cs : list ExplosionCall) (w : World)
    (m : Off.OffModel) (snap : list ExplodedVertexData) :
  initialized model m snap w ->
  forallb (spares model) cs = true ->
  Off.positions
    <$> heap (resetExplosion computeNormals model (do_calls computeNormals cs w)) !! model
  = Some (map original snap).
Proof.
  intros Hinit Hcs.
  destruct (do_calls_keep_initialized model cs w m snap Hinit Hcs) as (m1 & Hinit1).
  by apply (positions_after_reset _ _ m1).
Qed.

(** X5. Cleaning up an exploded model without resetting it first loses
    the baseline: after [updateExplosion] and [cleanupExplosionData],
    [resetExplosion] changes nothing, and the next [updateExplosion] moves
    no vertex and takes the displaced positions as the new snapshot. *)
Theorem X5_cleanup_without_reset (model : addr) (f g : float) (w : World)
    (m : Off.OffModel) (snap : list ExplodedVertexData) :
  initialized model m snap w ->
  let w1 := updateExplosion computeNormals model f w in
  let w2 := cleanupExplosionData model w1 in
  let w3 := updateExplosion computeNormals model g w2 in
  exists m1,
    heap w1 !! model = Some m1
    /\ resetExplosion computeNormals model w2 = w2
    /\ heap w3 = heap w1
    /\ explodedModels w3 !! model = Some (snapshot_of m1)
    /\ map original (snapshot_of m1) = Off.positions m1.
Proof.
  intros Hinit w1 w2 w3.
  destruct (update_keeps_initialized computeNormals computeNormals_positions
              model f w m snap Hinit) as (m1 & (Hnull & Hm1 & _ & Hn1 & _) & _).
  fold w1 in Hm1.
  assert (Hnone : explodedModels w2 !! model = None).
  { subst w2. simpl. apply lookup_delete_eq. }
  assert (Hm2 : heap w2 !! model = Some m1) by done.
  exists m1. split; [done|]. split.
  { unfold resetExplosion. rewrite Hnone. by destruct (model =? nullptr)%N. }
  subst w3. unfold updateExplosion, initializeExplosion.
  rewrite nullptr_eqb, Hnone, Hm2 by done. simpl.
  split; [done|]. split; [apply lookup_insert_eq|].
  by apply snapshot_of_positions.
Qed.

(** X6. With the factor 0, of either sign, [updateExplosion] puts a vertex
    on its baseline, coordinate by coordinate, when the baseline and the
    direction computed for the vertex are finite. *)
Theorem X6_update_by_zero (model : addr) (s : bool) (w : World)
    (m : Off.OffModel) (snap : list ExplodedVertexData)
    (i : nat) (base : ExplodedVertexData) :
  initialized model m snap w ->
  snap !! i = Some base ->
  vec3_finite (original base) = true ->
  vec3_finite (explosion_direction (explosion_center (Z.of_nat (length snap)) snap)
                                   (original base)) = true ->
  exists m' p,
    heap (updateExplosion computeNormals model (S754_zero s) w) !! model = Some m'
    /\ Off.positions m' !! i = Some p
    /\ vec3_eqb p (original base) = true.
Proof.
  intros Hinit Hbase Hfin Hdir.
  destruct (update_keeps_initialized computeNormals computeNormals_positions
              model (S754_zero s) w m snap Hinit) as (m' & (_ & Hm' & _) & Hpos).
  exists m'. eexists. split; [exact Hm'|]. split.
  { rewrite Hpos, list_lookup_fmap, Hbase. reflexivity. }
  unfold exploded_position.
  unfold vec3_finite in Hfin, Hdir. rewrite !andb_true_iff in Hfin, Hdir.
  destruct Hfin as [[Hx Hy] Hz], Hdir as [[Hdx Hdy] Hdz].
  unfold vec3_eqb, glm.add, glm.scale. cbn [vx vy vz].
  rewrite !add_mul_zero by done. done.
Qed.

End ExplosionComposition.

Lemma X3_update_forgets_history_witness :
  let w := initializeExplosion 1%N (world_with 1%N tetrahedron) in
  let cs := [CallUpdate 1%N F32.one; CallReset 1%N; CallUpdate 1%N F32.two;
             CallInitialize 1%N] in
  Off.positions
    <$> heap (updateExplosion clearNormals 1%N F32.half (do_calls clearNormals cs w)) !! 1%N
  = Off.positions <$> heap (updateExplosion clearNormals 1%N F32.half w) !! 1%N.
Proof.
  apply (X3_update_forgets_history clearNormals clearNormals_positions 1%N F32.half
           _ _ tetrahedron (snapshot_of tetrahedron)).
  - repeat split; first [discriminate | vm_compute; reflexivity].
  - vm_compute. reflexivity.
Defined.

Lemma X4_reset_after_any_history_witness :
  let w := initializeExplosion 1%N (world_with 1%N tetrahedron) in
  let cs := [CallUpdate 1%N F32.one; CallUpdate 1%N F32.half; CallReset 1%N;
             CallUpdate 1%N F32.two] in
  Off.positions
    <$> heap (resetExplosion clearNormals 1%N (do_calls clearNormals cs w)) !! 1%N
  = Some (map original (snapshot_of tetrahedron)).
Proof.
  apply (X4_reset_after_any_history clearNormals clearNormals_positions 1%N
           _ _ tetrahedron (snapshot_of tetrahedron)).
  - repeat split; first [discriminate | vm_compute; reflexivity].
  - vm_compute. reflexivity.
Defined.

Lemma X5_cleanup_without_reset_witness :
  let w := initializeExplosion 1%N (world_with 1%N tetrahedron) in
  let w1 := updateExplosion clearNormals 1%N F32.one w in
  let w2 := cleanupExplosionData 1%N w1 in
  let w3 := updateExplosion clearNormals 1%N F32.half w2 in
  exists m1,
    heap w1 !! 1%N = Some m1
    /\ resetExplosion clearNormals 1%N w2 = w2
    /\ heap w3 = heap w1
    /\ explodedModels w3 !! 1%N = Some (snapshot_of m1)
    /\ map original (snapshot_of m1) = Off.positions m1.
Proof.
  apply (X5_cleanup_without_reset clearNormals clearNormals_positions 1%N F32.one F32.half
           _ tetrahedron (snapshot_of tetrahedron)).
  repeat split; first [discriminate | vm_compute; reflexivity].
Defined.

Lemma X6_update_by_zero_witness :
  let w := initializeExplosion 1%N (world_with 1%N tetrahedron) in
  exists m' p,
    heap (updateExplosion clearNormals 1%N (S754_zero false) w) !! 1%N = Some m'
    /\ Off.positions m' !! 1%nat = Some p
    /\ vec3_eqb p (original (mkExplodedVertexData F32.one F32.zero F32.zero)) = true.
Proof.
  apply (X6_update_by_zero clearNormals clearNormals_positions 1%N false
           _ tetrahedron (snapshot_of tetrahedron) 1
           (mkExplodedVertexData F32.one F32.zero F32.zero)).
  - repeat split; first [discriminate | vm_compute; reflexivity].
  - vm_compute. reflexivity.
  - vm_compute. reflexivity.
  - vm_compute. reflexivity.
Defined.

(** ** More on [mesh.h]: the constructor *)

Lemma flat_map_singleton {A B : Type} (f : A -> B) (l : list A) :
  flat_map (fun i => [f i]) l = map f l.
Proof. induction l as [|i l IH]; simpl; [done|]. by rewrite IH. Qed.

Lemma Mesh_vertices_map (uninit : nat -> vec3) (m : Off.OffModel) :
  Mesh_vertices uninit m
  = map (fun i => mkMeshVertex (Off.pos (Off.vertices m !!! i)) vzero (uninit i))
        (seq 0 (Z.to_nat (Off.numberOfVertices m))).
Proof.
  unfold Mesh_vertices.
  rewrite (for_range_push (fun i => [_])). simpl.
  by rewrite flat_map_singleton, Nat.sub_0_r.
Qed.

Lemma Mesh_vertices_positions (uninit : nat -> vec3) (m : Off.OffModel) :
  Off.numberOfVertices m = Z.of_nat (length (Off.vertices m)) ->
  map position (Mesh_vertices uninit m) = Off.positions m.
Proof.
  intros Hn. rewrite Mesh_vertices_map, Hn, Nat2Z.id. unfold Off.positions.
  apply list_eq. intros k. rewrite !list_lookup_fmap.
  destruct (Off.vertices m !! k) as [a|] eqn:Ha.
  - rewrite lookup_seq_lt by (by eapply lookup_lt_Some). simpl.
    by rewrite (list_lookup_total_correct _ _ _ Ha).
  - rewrite lookup_seq_ge; [done|]. by apply lookup_ge_None.
Qed.

Lemma iter_add_normal_position (n : nat) (fn : vec3) (v : MeshVertex) :
  position (Nat.iter n (add_normal fn) v) = position v
  /\ faceCenter (Nat.iter n (add_normal fn) v) = faceCenter v.
Proof. induction n as [|n IH]; simpl; [done|]. exact IH. Qed.

Lemma accumulate_triangle_positions (st : PassState) (t : Z * Z * Z) :
  map position (fst (accumulate_triangle st t)) = map position (fst st).
Proof.
  destruct st as [vs ovs]. apply list_eq. intros k.
  rewrite !list_lookup_fmap, accumulate_triangle_lookup. cbn [fst].
  destruct (vs !! k) as [v|]; [|done]. simpl.
  by rewrite (proj1 (iter_add_normal_position _ _ _)).
Qed.

Lemma accumulateNormals_positions (idx : list Z) (st : PassState) :
  map position (fst (accumulateNormals idx st)) = map position (fst st).
Proof.
  destruct st as [vs ovs]. unfold accumulateNormals.
  apply (foldl_invariant
           (fun st' => map position (fst st') = map position (fst (vs, ovs)))).
  - simpl. rewrite map_map. done.
  - intros s e Hs. by rewrite accumulate_triangle_positions.
Qed.

Lemma normalizeNormals_positions (st : PassState) :
  map position (fst (normalizeNormals st)) = map position (fst st).
Proof.
  apply list_eq. intros k.
  rewrite !list_lookup_fmap, normalizeNormals_lookup.
  destruct (fst st !! k) as [v|]; [|done]. simpl.
  unfold normalized_or_kept. by destruct (F32.gtb _ _).
Qed.

Lemma calculateFaceCenters_positions (idx : list Z) (vs : list MeshVertex) :
  map position (calculateFaceCenters idx vs) = map position vs
  /\ map normal (calculateFaceCenters idx vs) = map normal vs.
Proof.
  unfold calculateFaceCenters.
  split; apply list_eq; intros k;
    rewrite !list_lookup_fmap, foldl_store_center_lookup;
    destruct (last_incident k (triangles idx)); by destruct (vs !! k).
Qed.

(** ** More on [mesh.h]: what the normal pass writes to the model *)

Lemma accumulate_triangle_snd_lookup (vs : list MeshVertex) (ovs : list Off.Vertex)
    (t : Z * Z * Z) (k : nat) :
  snd (accumulate_triangle (vs, ovs) t) !! k
  = Nat.iter (corners k t) Off.incr_numIcidentTri <$> ovs !! k.
Proof.
  destruct t as [[a b] c]. unfold accumulate_triangle, corners.
  cbn [snd]. rewrite !lookup_alter_eqb.
  destruct (ovs !! k) as [v|]; [|done]. cbn [fmap option_fmap option_map].
  destruct (Z.to_nat a =? k)%nat, (Z.to_nat b =? k)%nat, (Z.to_nat c =? k)%nat; done.
Qed.

Lemma foldl_accumulate_snd_lookup (ts : list (Z * Z * Z)) (st : PassState) (k : nat) :
  snd (foldl accumulate_triangle st ts) !! k
  = Nat.iter (sum_list (map (corners k) ts)) Off.incr_numIcidentTri <$> snd st !! k.
Proof.
  revert st. induction ts as [|t ts IH]; intros st; simpl.
  - by destruct (snd st !! k).
  - rewrite IH. destruct st as [vs ovs].
    rewrite accumulate_triangle_snd_lookup. cbn [snd].
    destruct (ovs !! k) as [a|]; [|done]. simpl. f_equal.
    rewrite (Nat.add_comm (corners k t)). by rewrite Nat.iter_add.
Qed.

Lemma iter_incr_numIcidentTri (n : nat) (a : Off.Vertex) :
  Nat.iter n Off.incr_numIcidentTri a
  = Off.mkVertex (Off.x a) (Off.y a) (Off.z a) (Off.normal a)
                 (Off.numIcidentTri a + Z.of_nat n).
Proof.
  induction n as [|n IH]; simpl.
  - destruct a. simpl. f_equal. lia.
  - rewrite IH. unfold Off.incr_numIcidentTri. simpl. f_equal. lia.
Qed.

Lemma occurrences_cons (k : nat) (a : Z) (l : list Z) :
  occurrences k (a :: l)
  = ((if (Z.to_nat a =? k)%nat then 1 else 0) + occurrences k l)%nat.
Proof.
  unfold occurrences. rewrite filter_cons.
  destruct (Nat.eqb_spec (Z.to_nat a) k) as [Heq|Hne].
  - by rewrite decide_True.
  - by rewrite decide_False.
Qed.

Lemma mod3_S3 (n : nat) : (S (S (S n)) mod 3 = n mod 3)%nat.
Proof.
  replace (S (S (S n))) with (n + 1 * 3)%nat by lia.
  apply Nat.Div0.mod_add.
Qed.

Lemma corners_are_occurrences (k : nat) (idx : list Z) :
  (length idx mod 3 = 0)%nat ->
  sum_list (map (corners k) (triangles idx)) = occurrences k idx.
Proof.
  remember (length idx) as n eqn:Hn. revert idx Hn.
  induction n as [n IH] using lt_wf_ind. intros idx Hn Hmod.
  destruct idx as [|a [|b [|c idx]]]; subst n.
  - done.
  - discriminate Hmod.
  - discriminate Hmod.
  - cbn [length] in Hmod. rewrite mod3_S3 in Hmod.
    cbn [triangles map sum_list]. rewrite !occurrences_cons.
    rewrite (IH (length idx)); [|cbn [length]; lia|done|done].
    unfold corners, id.
    destruct (Z.to_nat a =? k)%nat, (Z.to_nat b =? k)%nat, (Z.to_nat c =? k)%nat; lia.
Qed.

Lemma normalize_fold_snd (vs0 : list MeshVertex) (k n lo : nat)
    (vs : list MeshVertex) (ovs : list Off.Vertex) :
  (forall j, (lo <= j)%nat -> vs !!! j = vs0 !!! j) ->
  snd (foldl (fun acc i => normalize_vertex i acc) (vs, ovs) (seq lo n)) !! k
  = if decide (lo <= k < lo + n)%nat then mirrored (vs0 !!! k) <$> ovs !! k else ovs !! k.
Proof.
  revert lo vs ovs. induction n as [|n IH]; intros lo vs ovs Hvs.
  - simpl. case_decide; [lia|done].
  - change (seq lo (S n)) with (lo :: seq (S lo) n). cbn [foldl].
    assert (Hstep : exists vs1,
               normalize_vertex lo (vs, ovs) = (vs1, alter (mirrored (vs0 !!! lo)) lo ovs)
               /\ forall j, (S lo <= j)%nat -> vs1 !!! j = vs0 !!! j).
    { unfold normalize_vertex, mirrored. rewrite (Hvs lo) by lia.
      destruct (F32.gtb _ _).
      - eexists. split; [reflexivity|]. intros j Hj.
        rewrite list_lookup_total_alter_ne by lia. apply Hvs. lia.
      - exists vs. split; [by rewrite list_alter_id|]. intros j Hj. apply Hvs. lia. }
    destruct Hstep as (vs1 & -> & Hvs1).
    rewrite (IH (S lo) vs1 _ Hvs1), lookup_alter_eqb.
    destruct (Nat.eqb_spec lo k) as [->|Hne];
      repeat case_decide; try lia; by destruct (ovs !! k).
Qed.

Lemma normalizeNormals_snd_lookup (vs : list MeshVertex) (ovs : list Off.Vertex) (k : nat) :
  snd (normalizeNormals (vs, ovs)) !! k
  = match vs !! k with
    | Some v => mirrored v <$> ovs !! k
    | None => ovs !! k
    end.
Proof.
  unfold normalizeNormals, for_range. cbn [fst]. rewrite Nat.sub_0_r.
  rewrite (normalize_fold_snd vs) by done.
  destruct (vs !! k) as [v|] eqn:Hv.
  - rewrite decide_True by (pose proof (lookup_lt_Some _ _ _ Hv); lia).
    by rewrite (list_lookup_total_correct _ _ _ Hv).
  - rewrite decide_False; [done|]. pose proof (lookup_ge_None_1 _ _ Hv). lia.
Qed.

Lemma accumulateNormals_snd_lookup (idx : list Z) (vs : list MeshVertex)
    (ovs : list Off.Vertex) (k : nat) :
  snd (accumulateNormals idx (vs, ovs)) !! k
  = Nat.iter (sum_list (map (corners k) (triangles idx))) Off.incr_numIcidentTri
      <$> ovs !! k.
Proof. unfold accumulateNormals. by rewrite foldl_accumulate_snd_lookup. Qed.

(** The model vertex [k] after the whole pass. *)
Lemma calculateNormals_snd_lookup (idx : list Z) (vs : list MeshVertex)
    (ovs : list Off.Vertex) (k : nat) (a : Off.Vertex) :
  ovs !! k = Some a ->
  snd (calculateNormals idx (vs, ovs)) !! k
  = Some (let a1 := Nat.iter (sum_list (map (corners k) (triangles idx)))
                             Off.incr_numIcidentTri a in
          match fst (accumulateNormals idx (vs, ovs)) !! k with
          | Some v => mirrored v a1
          | None => a1
          end).
Proof.
  intros Ha. unfold calculateNormals.
  pose proof (accumulateNormals_snd_lookup idx vs ovs k) as Hsnd.
  destruct (accumulateNormals idx (vs, ovs)) as [vs1 ovs1]. cbn [fst snd] in *.
  rewrite normalizeNormals_snd_lookup, Hsnd, Ha.
  by destruct (vs1 !! k).
Qed.

Lemma mirrored_fields (v : MeshVertex) (a : Off.Vertex) :
  Off.pos (mirrored v a) = Off.pos a
  /\ Off.numIcidentTri (mirrored v a) = Off.numIcidentTri a.
Proof. unfold mirrored. by destruct (F32.gtb _ _). Qed.

(** X7. The normal pass adds to the counter [numIcidentTri] of every model
    vertex the number of entries of the index buffer that are this vertex
    (a triangle that names the vertex twice counts twice); it starts from
    whatever the counter held, and leaves the position alone. *)
Theorem X7_incident_counter (idx : list Z) (vs : list MeshVertex)
    (ovs : list Off.Vertex) (k : nat) (a : Off.Vertex) :
  (length idx mod 3 = 0)%nat ->
  ovs !! k = Some a ->
  exists a',
    snd (calculateNormals idx (vs, ovs)) !! k = Some a'
    /\ Off.numIcidentTri a' = Off.numIcidentTri a + Z.of_nat (occurrences k idx)
    /\ Off.pos a' = Off.pos a.
Proof.
  intros Hmod Ha. eexists. split; [by apply calculateNormals_snd_lookup|].
  cbn zeta. rewrite corners_are_occurrences by done.
  rewrite iter_incr_numIcidentTri.
  destruct (fst (accumulateNormals idx (vs, ovs)) !! k) as [v|].
  - destruct (mirrored_fields v
                (Off.mkVertex (Off.x a) (Off.y a) (Off.z a) (Off.normal a)
                              (Off.numIcidentTri a + Z.of_nat (occurrences k idx))))
      as [-> ->]. done.
  - done.
Qed.

Lemma X7_incident_counter_witness :
  let idx := Mesh_indices tetrahedron in
  let vs := Mesh_vertices (fun _ => vzero) tetrahedron in
  let a := vertex_at F32.zero F32.zero F32.zero in
  exists a',
    snd (calculateNormals idx (vs, Off.vertices tetrahedron)) !! 0%nat = Some a'
    /\ Off.numIcidentTri a' = Off.numIcidentTri a + Z.of_nat (occurrences 0 idx)
    /\ Off.pos a' = Off.pos a.
Proof.
  apply (X7_incident_counter (Mesh_indices tetrahedron)
           (Mesh_vertices (fun _ => vzero) tetrahedron) (Off.vertices tetrahedron) 0
           (vertex_at F32.zero F32.zero F32.zero)).
  - vm_compute. reflexivity.
  - vm_compute. reflexivity.
Defined.



Lemma calculateNormals_snd_positions (idx : list Z) (vs : list MeshVertex)
    (ovs : list Off.Vertex) :
  map Off.pos (snd (calculateNormals idx (vs, ovs))) = map Off.pos ovs.
Proof.
  apply list_eq. intros k. rewrite !list_lookup_fmap.
  destruct (ovs !! k) as [a|] eqn:Ha.
  - rewrite (calculateNormals_snd_lookup idx vs ovs k a Ha). cbn zeta.
    cbn [fmap option_fmap option_map]. f_equal.
    destruct (fst (accumulateNormals idx (vs, ovs)) !! k) as [v|].
    + by rewrite (proj1 (mirrored_fields _ _)), iter_incr_numIcidentTri.
    + by rewrite iter_incr_numIcidentTri.
  - unfold calculateNormals.
    pose proof (accumulateNormals_snd_lookup idx vs ovs k) as Hsnd.
    destruct (accumulateNormals idx (vs, ovs)) as [vs1 ovs1]. cbn [snd] in Hsnd.
    rewrite normalizeNormals_snd_lookup, Hsnd, Ha.
    by destruct (vs1 !! k).
Qed.

Lemma Mesh_of_model_positions (uninit : nat -> vec3) (p : addr) (m : Off.OffModel) :
  Off.numberOfVertices m = Z.of_nat (length (Off.vertices m)) ->
  map position (vertices (fst (Mesh_of_model uninit p m))) = Off.positions m
  /\ Off.positions (snd (Mesh_of_model uninit p m)) = Off.positions m
  /\ Off.numberOfVertices (snd (Mesh_of_model uninit p m)) = Off.numberOfVertices m
  /\ Off.polygons (snd (Mesh_of_model uninit p m)) = Off.polygons m.
Proof.
  intros Hn. unfold Mesh_of_model.
  pose proof (calculateNormals_snd_positions (Mesh_indices m) (Mesh_vertices uninit m)
                (Off.vertices m)) as Hsnd.
  pose proof (normalizeNormals_positions
                (accumulateNormals (Mesh_indices m) (Mesh_vertices uninit m, Off.vertices m)))
    as Hfst.
  rewrite accumulateNormals_positions in Hfst. cbn [fst] in Hfst.
  fold (calculateNormals (Mesh_indices m) (Mesh_vertices uninit m, Off.vertices m)) in Hfst.
  destruct (calculateNormals _ _) as [vs1 ovs1]. cbn [fst snd] in *.
  unfold Off.positions.
  cbn [fst snd vertices Off.vertices Off.set_vertices Off.numberOfVertices Off.polygons].
  split; [|split; [|split]]; try done.
  rewrite (proj1 (calculateFaceCenters_positions _ _)), Hfst.
  by apply Mesh_vertices_positions.
Qed.

(** X9. The constructor copies the position of every model vertex into the
    mesh, in order, and the normal and face-centre passes move nothing:
    the mesh has the positions of the model, and the model keeps its
    positions and its vertex count. *)
Theorem X9_constructor_copies_positions (uninit : nat -> vec3) (p : addr) (m : Off.OffModel) :
  Off.numberOfVertices m = Z.of_nat (length (Off.vertices m)) ->
  map position (vertices (fst (Mesh_of_model uninit p m))) = Off.positions m
  /\ Off.positions (snd (Mesh_of_model uninit p m)) = Off.positions m
  /\ Off.numberOfVertices (snd (Mesh_of_model uninit p m)) = Off.numberOfVertices m
  /\ Off.polygons (snd (Mesh_of_model uninit p m)) = Off.polygons m.
Proof. apply Mesh_of_model_positions. Qed.

Lemma X9_constructor_copies_positions_witness :
  map position (vertices (fst (Mesh_of_model (fun _ => vzero) 1%N tetrahedron)))
  = Off.positions tetrahedron
  /\ Off.positions (snd (Mesh_of_model (fun _ => vzero) 1%N tetrahedron))
     = Off.positions tetrahedron
  /\ Off.numberOfVertices (snd (Mesh_of_model (fun _ => vzero) 1%N tetrahedron))
     = Off.numberOfVertices tetrahedron
  /\ Off.polygons (snd (Mesh_of_model (fun _ => vzero) 1%N tetrahedron))
     = Off.polygons tetrahedron.
Proof.
  apply (X9_constructor_copies_positions (fun _ => vzero) 1%N tetrahedron).
  reflexivity.
Defined.

(** ** More on [mesh.h]: the index buffer, face by face *)

Lemma Mesh_indices_flat_map (m : Off.OffModel) :
  Off.numberOfPolygons m = Z.of_nat (length (Off.polygons m)) ->
  Mesh_indices m = flat_map (fun p => triangulate p []) (Off.polygons m).
Proof.
  intros Hn. unfold Mesh_indices, for_range. rewrite Hn, Nat2Z.id, Nat.sub_0_r.
  assert (H : forall (pre ps : list Off.Polygon) (acc : list Z),
             foldl (fun acc i => triangulate ((pre ++ ps) !!! i) acc) acc
                   (seq (length pre) (length ps))
             = acc ++ flat_map (fun p => triangulate p []) ps).
  { intros pre ps. revert pre. induction ps as [|q ps IH]; intros pre acc; simpl.
    - by rewrite app_nil_r.
    - rewrite list_lookup_total_middle by done.
      specialize (IH (pre ++ [q]) (triangulate q acc)).
      rewrite length_app, <- app_assoc in IH. simpl in IH.
      rewrite Nat.add_1_r in IH. rewrite IH.
      rewrite (triangulate_push q acc), (triangulate_push q []). simpl.
      by rewrite <- app_assoc. }
  exact (H [] (Off.polygons m) []).
Qed.

Lemma triangles_app (l1 l2 : list Z) :
  (length l1 mod 3 = 0)%nat -> triangles (l1 ++ l2) = triangles l1 ++ triangles l2.
Proof.
  remember (length l1) as n eqn:Hn. revert l1 Hn.
  induction n as [n IH] using lt_wf_ind. intros l1 Hn Hmod.
  destruct l1 as [|a [|b [|c l1]]]; subst n.
  - done.
  - discriminate Hmod.
  - discriminate Hmod.
  - cbn [length] in Hmod. rewrite mod3_S3 in Hmod.
    cbn [app triangles]. f_equal.
    apply (IH (length l1)); [cbn [length]; lia|done|done].
Qed.

Lemma triangulate_nil_mod3 (p : Off.Polygon) : (length (triangulate p []) mod 3 = 0)%nat.
Proof.
  rewrite triangulate_length. cbn [length].
  rewrite Nat.add_0_l, (Nat.mul_comm 3). apply Nat.Div0.mod_mul.
Qed.

Lemma triangulate_nil_count (p : Off.Polygon) :
  length (triangles (triangulate p [])) = Z.to_nat (Off.noSides p - 2).
Proof.
  rewrite triangulate_push. simpl.
  rewrite (triangles_flat_map
             (fun _ => to_uint (Off.v p !!! 0%nat))
             (fun j => to_uint (Off.v p !!! j))
             (fun j => to_uint (Off.v p !!! (j + 1)%nat))).
  rewrite length_map, length_seq. lia.
Qed.

Lemma triangles_of_fans (ps : list Off.Polygon) :
  triangles (flat_map (fun p => triangulate p []) ps)
  = flat_map (fun p => triangles (triangulate p [])) ps.
Proof.
  induction ps as [|q ps IH]; simpl; [done|].
  rewrite triangles_app by apply triangulate_nil_mod3. by rewrite IH.
Qed.

Lemma count_of_fans (ps : list Off.Polygon) :
  length (flat_map (fun p => triangles (triangulate p [])) ps)
  = sum_list (map (fun p => Z.to_nat (Off.noSides p - 2)) ps).
Proof.
  induction ps as [|q ps IH]; simpl; [done|].
  by rewrite length_app, IH, triangulate_nil_count.
Qed.

(** X10. The index buffer is the fans of the polygons one after the other,
    in the order of the file; a polygon of k sides contributes k - 2
    triangles, and a polygon of fewer than three sides contributes none
    and is passed over in silence. *)
Theorem X10_index_buffer_is_the_fans (m : Off.OffModel) :
  Off.numberOfPolygons m = Z.of_nat (length (Off.polygons m)) ->
  Mesh_indices m = flat_map (fun p => triangulate p []) (Off.polygons m)
  /\ triangles (Mesh_indices m)
     = flat_map (fun p => triangles (triangulate p [])) (Off.polygons m)
  /\ length (triangles (Mesh_indices m))
     = sum_list (map (fun p => Z.to_nat (Off.noSides p - 2)) (Off.polygons m))
  /\ forall (p : Off.Polygon) (idx : list Z),
       Off.noSides p < 3 -> triangulate p idx = idx.
Proof.
  intros Hn. rewrite Mesh_indices_flat_map by done.
  split; [done|]. split; [apply triangles_of_fans|]. split.
  - rewrite triangles_of_fans. apply count_of_fans.
  - intros p idx Hp. rewrite triangulate_push.
    replace (Z.to_nat (Off.noSides p - 1) - 1)%nat with 0%nat by lia.
    simpl. by rewrite app_nil_r.
Qed.

(** A triangle, a side-less face, a two-sided face and a quadrilateral. *)
Lemma X10_index_buffer_is_the_fans_witness :
  let m := model_of [vertex_at F32.zero F32.zero F32.zero;
                     vertex_at F32.one F32.zero F32.zero;
                     vertex_at F32.zero F32.one F32.zero;
                     vertex_at F32.one F32.one F32.zero]
                    [[0; 1; 2]; []; [1; 2]; [0; 1; 3; 2]] in
  Mesh_indices m = flat_map (fun p => triangulate p []) (Off.polygons m)
  /\ triangles (Mesh_indices m)
     = flat_map (fun p => triangles (triangulate p [])) (Off.polygons m)
  /\ length (triangles (Mesh_indices m))
     = sum_list (map (fun p => Z.to_nat (Off.noSides p - 2)) (Off.polygons m))
  /\ forall (p : Off.Polygon) (idx : list Z),
       Off.noSides p < 3 -> triangulate p idx = idx.
Proof.
  intros m. apply (X10_index_buffer_is_the_fans m). reflexivity.
Defined.

(** ** More on [mesh.h]: the array buffer *)

Lemma flat_map_lookup_const {A B : Type} (c : nat) (f : A -> list B) (l : list A)
    (k j : nat) (x : A) :
  (forall y, length (f y) = c) ->
  l !! k = Some x ->
  (j < c)%nat ->
  flat_map f l !! (k * c + j)%nat = f x !! j.
Proof.
  intros Hc. revert k. induction l as [|a l IH]; intros k Hk Hj; [done|].
  destruct k as [|k]; simpl in *.
  - injection Hk as ->. apply lookup_app_l. rewrite Hc. lia.
  - rewrite lookup_app_r by (rewrite Hc; lia).
    rewrite Hc. replace (c + k * c + j - c)%nat with (k * c + j)%nat by lia.
    by apply IH.
Qed.

Lemma attributes_setupMesh (mesh : Mesh) (k : nat) (v : MeshVertex) :
  vertices mesh !! k = Some v ->
  attributes (setupMesh mesh) k = (position v, normal v, faceCenter v).
Proof.
  intros Hv. unfold attributes, setupMesh, sizeof_MeshVertex_words. cbn [array_buffer].
  assert (Hw : forall j, (j < 9)%nat ->
             flat_map words_of_MeshVertex (vertices mesh) !!! (k * 9 + j)%nat
             = words_of_MeshVertex v !!! j).
  { intros j Hj. rewrite !list_lookup_total_alt.
    by rewrite (flat_map_lookup_const 9 words_of_MeshVertex _ k j v). }
  rewrite !Hw by lia.
  destruct v as [[] [] []]. reflexivity.
Qed.

(** X11. What [setupMesh] stores is read back by the attribute layout it
    declares: for every vertex of the mesh the three attributes of the
    vertex shader are its position, its normal and its face centre; the
    array buffer holds nine floats per vertex and the element buffer is
    the index vector. *)
Theorem X11_setupMesh_layout (mesh : Mesh) (k : nat) (v : MeshVertex) :
  vertices mesh !! k = Some v ->
  attributes (setupMesh mesh) k = (position v, normal v, faceCenter v)
  /\ length (array_buffer (setupMesh mesh)) = (9 * length (vertices mesh))%nat
  /\ element_buffer (setupMesh mesh) = indices mesh.
Proof.
  intros Hv. split; [by apply attributes_setupMesh|split; [|done]].
  unfold setupMesh. cbn [array_buffer].
  by rewrite (flat_map_length_const 9).
Qed.

Lemma X11_setupMesh_layout_witness :
  let mesh := Main.mesh tetrahedron_app in
  let v := mkMeshVertex (vec3_of_ints 0 0 0)
             (mkvec3 (S754_finite true 9686330 (-24)) (S754_finite true 9686330 (-24))
                     (S754_finite true 9686330 (-24)))
             (mkvec3 F32.zero (F32.div F32.one F32.three) (F32.div F32.one F32.three)) in
  attributes (setupMesh mesh) 0 = (position v, normal v, faceCenter v)
  /\ length (array_buffer (setupMesh mesh)) = (9 * length (vertices mesh))%nat
  /\ element_buffer (setupMesh mesh) = indices mesh.
Proof.
  intros mesh v. apply (X11_setupMesh_layout mesh 0 v).
  vm_compute. reflexivity.
Defined.

(** ** More on [mesh.h]: a face that names a vertex twice *)

Lemma sub_diag_zero_or_nan (a : float) : zero_or_nan (F32.sub a a) = true.
Proof.
  destruct a as [s|s| |s ma ea].
  - by destruct s.
  - by destruct s.
  - done.
  - unfold F32.sub, SFsub. by rewrite Z.sub_diag.
Qed.

Lemma mul_zero_or_nan_l (a b : float) :
  zero_or_nan a = true -> zero_or_nan (F32.mul a b) = true.
Proof. destruct a, b; done. Qed.

Lemma mul_zero_or_nan_r (a b : float) :
  zero_or_nan b = true -> zero_or_nan (F32.mul a b) = true.
Proof. destruct a, b; done. Qed.

Lemma sub_zero_or_nan (a b : float) :
  zero_or_nan a = true -> zero_or_nan b = true -> zero_or_nan (F32.sub a b) = true.
Proof. destruct a as [[]| | |], b as [[]| | |]; done. Qed.

Lemma normalize_zero_or_nan (a b c : float) :
  zero_or_nan a = true -> zero_or_nan b = true -> zero_or_nan c = true ->
  glm.normalize (mkvec3 a b c) = nan3.
Proof.
  destruct a as [[]| | |], b as [[]| | |], c as [[]| | |]; try done;
    intros _ _ _; vm_compute; reflexivity.
Qed.

Lemma faceNormal_repeated_corner (vs : list MeshVertex) (t : Z * Z * Z) :
  repeated_corner t = true -> faceNormal_of vs t = nan3.
Proof.
  destruct t as [[a b] c]. unfold repeated_corner, faceNormal_of.
  rewrite !orb_true_iff, !Nat.eqb_eq.
  intros [[Heq|Heq]|Heq]; rewrite Heq.
  all: generalize (position (vs !!! Z.to_nat a)) (position (vs !!! Z.to_nat b))
                  (position (vs !!! Z.to_nat c)).
  all: intros [x1 y1 z1] [x2 y2 z2] [x3 y3 z3].
  all: unfold glm.cross, glm.sub; cbn [vx vy vz].
  all: apply normalize_zero_or_nan.
  all: first
    [ apply sub_diag_zero_or_nan
    | apply sub_zero_or_nan;
      first [ apply mul_zero_or_nan_l; apply sub_diag_zero_or_nan
            | apply mul_zero_or_nan_r; apply sub_diag_zero_or_nan ] ].
Qed.

Lemma add_nan_r (v : vec3) : glm.add v nan3 = nan3.
Proof. destruct v as [[] [] []]; reflexivity. Qed.

Lemma add_nan_l (v : vec3) : glm.add nan3 v = nan3.
Proof. reflexivity. Qed.

Lemma iter_add_normal_nan (n : nat) (fn : vec3) (v : MeshVertex) :
  normal v = nan3 -> normal (Nat.iter n (add_normal fn) v) = nan3.
Proof.
  intros Hv. induction n as [|n IH]; simpl; [done|].
  by rewrite IH, add_nan_l.
Qed.

Lemma iter_add_nan_normal (n : nat) (v : MeshVertex) :
  (0 < n)%nat -> normal (Nat.iter n (add_normal nan3) v) = nan3.
Proof.
  destruct n as [|n]; [lia|]. intros _. simpl. apply add_nan_r.
Qed.

Lemma corners_incident (k : nat) (t : Z * Z * Z) :
  incident k t = true -> (0 < corners k t)%nat.
Proof.
  destruct t as [[a b] c]. unfold incident, corners.
  destruct (Z.to_nat a =? k)%nat, (Z.to_nat b =? k)%nat, (Z.to_nat c =? k)%nat;
    simpl; intros H; try lia; done.
Qed.

Lemma foldl_accumulate_keeps_nan (ts : list (Z * Z * Z)) (st : PassState)
    (k : nat) (v : MeshVertex) :
  fst st !! k = Some v ->
  normal v = nan3 ->
  exists v', fst (foldl accumulate_triangle st ts) !! k = Some v' /\ normal v' = nan3.
Proof.
  revert st v. induction ts as [|t ts IH]; intros st v Hv Hnan; simpl; [by exists v|].
  destruct st as [vs ovs]. cbn [fst] in Hv.
  apply (IH _ (Nat.iter (corners k t) (add_normal (faceNormal_of vs t)) v)).
  - by rewrite accumulate_triangle_lookup, Hv.
  - by apply iter_add_normal_nan.
Qed.

Lemma foldl_accumulate_lookup_Some (ts : list (Z * Z * Z)) (st : PassState)
    (k : nat) (v : MeshVertex) :
  fst st !! k = Some v ->
  exists v', fst (foldl accumulate_triangle st ts) !! k = Some v'.
Proof.
  intros Hv. apply lookup_lt_is_Some_2.
  assert (Hlen : length (fst (foldl accumulate_triangle st ts)) = length (fst st)).
  { apply (foldl_invariant (fun st' => length (fst st') = length (fst st))); [done|].
    intros s e Hs. by rewrite accumulate_triangle_length. }
  rewrite Hlen. by eapply lookup_lt_Some.
Qed.

Lemma length_of_nan : F32.gtb (glm.length nan3) F32.lit_0_0001 = false.
Proof. vm_compute. reflexivity. Qed.

(** X12. A triangle of the index buffer that names a vertex twice has no
    face normal: the normalization of its zero cross product is NaN in
    every coordinate.  The NaN spreads to the normal of every corner of
    that triangle, whatever the other faces at that vertex contribute,
    and the last loop leaves it there. *)
Theorem X12_repeated_corner_gives_nan (idx : list Z) (vs : list MeshVertex)
    (ovs : list Off.Vertex) (t : Z * Z * Z) (k : nat) (v : MeshVertex) :
  t ∈ triangles idx ->
  repeated_corner t = true ->
  incident k t = true ->
  vs !! k = Some v ->
  faceNormal_of vs t = nan3
  /\ normal <$> fst (calculateNormals idx (vs, ovs)) !! k = Some nan3.
Proof.
  intros Hin Hrep Hinc Hv. split; [by apply faceNormal_repeated_corner|].
  unfold calculateNormals. rewrite normalizeNormals_lookup.
  unfold accumulateNormals.
  apply list_elem_of_split in Hin. destruct Hin as (ts1 & ts2 & ->).
  rewrite foldl_app. cbn [foldl].
  destruct (foldl_accumulate_lookup_Some ts1
              (map (set_normal (glm.vec3_splat F32.zero)) vs, ovs) k
              (set_normal (glm.vec3_splat F32.zero) v)) as (v1 & Hv1).
  { cbn [fst]. by rewrite list_lookup_fmap, Hv. }
  destruct (foldl accumulate_triangle _ ts1) as [vs1 ovs1]. cbn [fst] in Hv1.
  destruct (foldl_accumulate_keeps_nan ts2 (accumulate_triangle (vs1, ovs1) t) k
              (Nat.iter (corners k t) (add_normal (faceNormal_of vs1 t)) v1))
    as (v2 & Hv2 & Hnan).
  { by rewrite accumulate_triangle_lookup, Hv1. }
  { rewrite faceNormal_repeated_corner by done.
    by apply iter_add_nan_normal, corners_incident. }
  rewrite Hv2. cbn [fmap option_fmap option_map]. f_equal.
  unfold normalized_or_kept. by rewrite Hnan, length_of_nan.
Qed.

Lemma X12_repeated_corner_gives_nan_witness :
  let idx := Mesh_indices repeated_index in
  let vs := Mesh_vertices (fun _ => vzero) repeated_index in
  faceNormal_of vs (0, 0, 1) = nan3
  /\ normal <$> fst (calculateNormals idx (vs, Off.vertices repeated_index)) !! 1%nat
     = Some nan3.
Proof.
  apply (X12_repeated_corner_gives_nan (Mesh_indices repeated_index)
           (Mesh_vertices (fun _ => vzero) repeated_index)
           (Off.vertices repeated_index) (0, 0, 1) 1
           (mkMeshVertex (vec3_of_ints 1 0 0) vzero vzero)).
  - vm_compute. apply list_elem_of_In. right. left. reflexivity.
  - reflexivity.
  - reflexivity.
  - vm_compute. reflexivity.
Defined.

(** ** More on [mesh.h]: a model without faces *)

Lemma normalizeNormals_zero (vs : list MeshVertex) (ovs : list Off.Vertex) :
  Forall (fun v => normal v = vzero) vs ->
  normalizeNormals (vs, ovs) = (vs, ovs).
Proof.
  intros Hz. unfold normalizeNormals.
  apply (for_range_invariant (fun st => st = (vs, ovs))); [done|].
  intros i st _ ->. unfold normalize_vertex.
  assert (Hn : normal (vs !!! i) = vzero).
  { rewrite list_lookup_total_alt. destruct (vs !! i) as [v|] eqn:Hv; [|done].
    rewrite Forall_lookup in Hz. exact (Hz i v Hv). }
  by rewrite Hn, length_of_zero.
Qed.

(** X13. A model without polygons gives a mesh with an empty index buffer:
    every vertex has its position, the zero normal and the face centre it
    was created with (nothing ever writes it), and the model is left as it
    was. *)
Theorem X13_model_without_faces (uninit : nat -> vec3) (p : addr) (m : Off.OffModel) :
  Off.numberOfPolygons m <= 0 ->
  Mesh_of_model uninit p m
  = (mkMesh (map (fun i => mkMeshVertex (Off.pos (Off.vertices m !!! i)) vzero (uninit i))
                 (seq 0 (Z.to_nat (Off.numberOfVertices m))))
            [] (centerOfMass_of m) (boundingSphereRadius_of m) p,
     m).
Proof.
  intros Hnp. unfold Mesh_of_model.
  assert (Hidx : Mesh_indices m = []).
  { unfold Mesh_indices, for_range.
    by replace (Z.to_nat (Off.numberOfPolygons m) - 0)%nat with 0%nat by lia. }
  rewrite Hidx, Mesh_vertices_map.
  set (vs := map _ _).
  assert (Hz : Forall (fun v => normal v = vzero) vs).
  { subst vs. rewrite Forall_forall. intros v Hv.
    apply list_elem_of_In, in_map_iff in Hv. by destruct Hv as (i & <- & _). }
  assert (Hcn : calculateNormals [] (vs, Off.vertices m) = (vs, Off.vertices m)).
  { unfold calculateNormals, accumulateNormals. cbn [triangles foldl].
    assert (Hmap : map (set_normal (glm.vec3_splat F32.zero)) vs = vs).
    { rewrite <- (map_id vs) at 2. apply map_ext_Forall.
      eapply Forall_impl; [exact Hz|]. intros [pv nv fc] Hv. simpl in Hv.
      unfold set_normal. simpl. by rewrite Hv. }
    rewrite Hmap. by apply normalizeNormals_zero. }
  rewrite Hcn. cbn [calculateFaceCenters triangles foldl].
  f_equal. by destruct m.
Qed.

Lemma X13_model_without_faces_witness :
  Mesh_of_model (fun _ => vzero) 1%N point_cloud
  = (mkMesh (map (fun i => mkMeshVertex (Off.pos (Off.vertices point_cloud !!! i))
                                        vzero vzero)
                 (seq 0 (Z.to_nat (Off.numberOfVertices point_cloud))))
            [] (centerOfMass_of point_cloud) (boundingSphereRadius_of point_cloud) 1%N,
     point_cloud).
Proof.
  apply (X13_model_without_faces (fun _ => vzero) 1%N point_cloud).
  vm_compute. discriminate.
Defined.

(** ** More on [main.cpp]: the explode factor *)

Lemma SFcompare_antisym (x y : float) :
  SFcompare y x = CompOpp <$> SFcompare x y.
Proof.
  destruct x as [sx|sx| |sx mx ex], y as [sy|sy| |sy my ey]; simpl; try done.
  - by destruct sy.
  - by destruct sy.
  - by destruct sx.
  - by destruct sx, sy.
  - by destruct sx.
  - by destruct sx.
  - by destruct sy.
  - assert (Hp : Pos.compare_cont Eq my mx = CompOpp (Pos.compare_cont Eq mx my)).
    { by rewrite Pos.compare_cont_antisym. }
    rewrite (Z.compare_antisym ex ey), Hp.
    destruct sx, sy; try done; destruct (ex ?= ey); simpl; try done.
Qed.

Lemma leb_of_not_gt (x y : float) :
  F32.is_nan x = false -> F32.is_nan y = false ->
  F32.gtb x y = false -> SFleb x y = true.
Proof.
  intros Hx Hy. unfold F32.gtb, SFltb, SFleb.
  rewrite (SFcompare_antisym x y).
  destruct x, y; try done; simpl in *;
    match goal with |- context [match ?c with _ => _ end] => destruct c eqn:? end;
    simpl; try done.
  all: match goal with |- context [match ?c with _ => _ end] => destruct c end; done.
Qed.

Lemma in_unit_of_clamped (x : float) :
  F32.is_nan x = false ->
  F32.gtb x F32.one = false ->
  F32.ltb x F32.zero = false ->
  in_unit x = true.
Proof.
  intros Hnan Hgt Hlt. unfold in_unit.
  assert (Hfin : F32.is_finite x = true).
  { destruct x as [s|[]| |s m e]; try done. }
  rewrite Hfin. simpl.
  rewrite (leb_of_not_gt F32.zero x), (leb_of_not_gt x F32.one); done.
Qed.

Lemma in_unit_finite (x : float) : in_unit x = true -> F32.is_finite x = true.
Proof. unfold in_unit. rewrite !andb_true_iff. tauto. Qed.

Lemma frame_factor (computeNormals : Off.OffModel -> Off.OffModel)
    (deltaTime : float) (a : Main.App) :
  F32.is_finite deltaTime = true ->
  in_unit (Main.explodeFactor a) = true ->
  (Main.explodeDirection a = F32.one \/ Main.explodeDirection a = F32.of_int (-1)) ->
  in_unit (Main.explodeFactor (Main.frame computeNormals deltaTime a)) = true
  /\ (Main.explodeDirection (Main.frame computeNormals deltaTime a) = F32.one
      \/ Main.explodeDirection (Main.frame computeNormals deltaTime a) = F32.of_int (-1)).
Proof.
  intros Hdt Hf Hd. unfold Main.frame.
  destruct (Main.explodeAnimation a); [|done].
  set (f := F32.add _ _).
  assert (Hnan : F32.is_nan f = false).
  { subst f. apply add_not_nan; [by apply in_unit_finite|].
    apply mul_finite_not_nan; [|done]. by destruct Hd as [-> | ->]. }
  destruct (F32.gtb f F32.one) eqn:Hgt; [simpl; by auto|].
  destruct (F32.ltb f F32.zero) eqn:Hlt; [simpl; by auto|].
  simpl. split; [by apply in_unit_of_clamped|done].
Qed.

Lemma step_factor (computeNormals : Off.OffModel -> Off.OffModel)
    (e : Main.Event) (a : Main.App) :
  sane_event e = true ->
  in_unit (Main.explodeFactor a) = true ->
  (Main.explodeDirection a = F32.one \/ Main.explodeDirection a = F32.of_int (-1)) ->
  in_unit (Main.explodeFactor (Main.step computeNormals e a)) = true
  /\ (Main.explodeDirection (Main.step computeNormals e a) = F32.one
      \/ Main.explodeDirection (Main.step computeNormals e a) = F32.of_int (-1)).
Proof.
  intros He Hf Hd. destruct e as [dt|v| | |]; simpl in *.
  - by apply frame_factor.
  - done.
  - split; [done|]. destruct (F32.gtb _ _); auto.
  - unfold Main.key_N. destruct (_ =? _)%N; simpl; auto.
  - done.
Qed.

(** X14. The explode factor stays a finite number between 0 and 1, and the
    direction of the animation stays 1 or -1, through any sequence of
    events whose frame times are finite and whose slider values are in the
    range of the slider: the animation step clamps what it adds up. *)
Theorem X14_factor_stays_in_range (computeNormals : Off.OffModel -> Off.OffModel)
    (es : list Main.Event) (a : Main.App) :
  forallb sane_event es = true ->
  in_unit (Main.explodeFactor a) = true ->
  (Main.explodeDirection a = F32.one \/ Main.explodeDirection a = F32.of_int (-1)) ->
  in_unit (Main.explodeFactor (Main.run computeNormals es a)) = true
  /\ (Main.explodeDirection (Main.run computeNormals es a) = F32.one
      \/ Main.explodeDirection (Main.run computeNormals es a) = F32.of_int (-1)).
Proof.
  unfold Main.run. revert a. induction es as [|e es IH]; intros a Hes Hf Hd; simpl; [done|].
  simpl in Hes. apply andb_true_iff in Hes. destruct Hes as [He Hes].
  destruct (step_factor computeNormals e a He Hf Hd) as [Hf1 Hd1].
  by apply IH.
Qed.

Lemma X14_factor_stays_in_range_witness :
  let es := [Main.ExplodeView; Main.Frame (F32.of_int 7); Main.Frame F32.half;
             Main.SliderMoved F32.half; Main.ExplodeView; Main.Frame (F32.of_int 1000);
             Main.KeyN] in
  in_unit (Main.explodeFactor (Main.run clearNormals es tetrahedron_app)) = true
  /\ (Main.explodeDirection (Main.run clearNormals es tetrahedron_app) = F32.one
      \/ Main.explodeDirection (Main.run clearNormals es tetrahedron_app) = F32.of_int (-1)).
Proof.
  apply (X14_factor_stays_in_range clearNormals _ tetrahedron_app).
  - vm_compute. reflexivity.
  - vm_compute. reflexivity.
  - left. vm_compute. reflexivity.
Defined.

(** ** [main.cpp]: the model follows [explodeFactor] *)

Section MainInvariant.

Variable computeNormals : Off.OffModel -> Off.OffModel.

Hypothesis computeNormals_positions :
  forall m, Off.positions (computeNormals m) = Off.positions m
            /\ Off.numberOfVertices (computeNormals m) = Off.numberOfVertices m.

Lemma step_offModel (e : Main.Event) (a : Main.App) :
  Main.offModel (Main.step computeNormals e a) = Main.offModel a.
Proof.
  destruct e; simpl; try done.
  - unfold Main.frame. destruct (Main.explodeAnimation a); [|done].
    destruct (F32.gtb _ _); [done|]. destruct (F32.ltb _ _); done.
  - unfold Main.key_N. destruct (_ =? _)%N; done.
Qed.

Lemma update_follows_factor (snap : list ExplodedVertexData) (a : Main.App)
    (factor : float) (animation : bool) (direction : float) :
  follows_factor snap a ->
  follows_factor snap
    (Main.mkApp (Main.mesh a) (Main.gl a)
       (if (Main.offModel a =? nullptr)%N then Main.world a
        else updateExplosion computeNormals (Main.offModel a) factor (Main.world a))
       factor animation direction (Main.offModel a)).
Proof.
  intros (m & Hinit & _).
  assert (Hnull : Main.offModel a <> nullptr) by apply Hinit.
  rewrite nullptr_eqb by done.
  destruct (update_keeps_initialized computeNormals computeNormals_positions
              _ factor _ m snap Hinit) as (m' & Hinit' & Hpos).
  exists m'. split; [done|]. by right.
Qed.

Lemma step_follows_factor (snap : list ExplodedVertexData) (e : Main.Event) (a : Main.App) :
  is_Shutdown e = false ->
  follows_factor snap a ->
  follows_factor snap (Main.step computeNormals e a).
Proof.
  intros He Ha. destruct e as [dt|v| | |]; simpl in *; [| | |  |done].
  - unfold Main.frame. destruct (Main.explodeAnimation a); [|done].
    destruct (F32.gtb _ _); [by apply update_follows_factor|].
    destruct (F32.ltb _ _); by apply update_follows_factor.
  - by apply update_follows_factor.
  - destruct Ha as (m & Hinit & Hpos). exists m. split; [exact Hinit|exact Hpos].
  - destruct Ha as (m & Hinit & _).
    assert (Hnull : Main.offModel a <> nullptr) by apply Hinit.
    unfold Main.key_N. rewrite nullptr_eqb by done.
    destruct (reset_keeps_initialized computeNormals computeNormals_positions
                _ _ m snap Hinit) as (m' & Hinit' & Hpos).
    exists m'. split; [done|]. by left.
Qed.

Lemma run_follows_factor (snap : list ExplodedVertexData) (es : list Main.Event)
    (a : Main.App) :
  forallb (fun e => negb (is_Shutdown e)) es = true ->
  follows_factor snap a ->
  follows_factor snap (Main.run computeNormals es a).
Proof.
  unfold Main.run. revert a. induction es as [|e es IH]; intros a Hes Ha; simpl; [done|].
  simpl in Hes. apply andb_true_iff in Hes. destruct Hes as [He Hes].
  apply IH; [done|]. apply step_follows_factor; [|done].
  by destruct (is_Shutdown e).
Qed.

(** X15. Between the start and the shutdown the model is always where
    [explodeFactor] says: after any sequence of frames, slider moves,
    presses of the explode button and resets, the model still has its
    snapshot, and its positions are either the baseline with the factor at
    0, or the baseline displaced by the current value of [explodeFactor]. *)
Theorem X15_model_follows_factor (snap : list ExplodedVertexData) (es : list Main.Event)
    (a : Main.App) :
  forallb (fun e => negb (is_Shutdown e)) es = true ->
  follows_factor snap a ->
  follows_factor snap (Main.run computeNormals es a).
Proof. apply run_follows_factor. Qed.

(** X17. The key N, whatever happened before it, puts every vertex of the
    model back on its baseline and sets [explodeFactor] to 0; it leaves the
    animation flag as it was, so a running animation goes on from 0. *)
Theorem X17_key_N_restores (snap : list ExplodedVertexData) (es : list Main.Event)
    (a : Main.App) :
  forallb (fun e => negb (is_Shutdown e)) es = true ->
  follows_factor snap a ->
  let a1 := Main.run computeNormals es a in
  let a2 := Main.step computeNormals Main.KeyN a1 in
  Main.model_positions a2 = Some (map original snap)
  /\ Main.explodeFactor a2 = F32.zero
  /\ Main.explodeAnimation a2 = Main.explodeAnimation a1
  /\ Main.explodeDirection a2 = Main.explodeDirection a1
  /\ explodedModels (Main.world a2) !! Main.offModel a2 = Some snap.
Proof.
  intros Hes Ha a1 a2.
  destruct (run_follows_factor snap es a Hes Ha) as (m & Hinit & _).
  fold a1 in Hinit.
  assert (Hnull : Main.offModel a1 <> nullptr) by apply Hinit.
  destruct (reset_keeps_initialized computeNormals computeNormals_positions
              _ _ m snap Hinit) as (m' & (_ & Hm' & Hsnap' & _) & Hpos).
  subst a2. simpl. unfold Main.key_N, Main.model_positions.
  rewrite nullptr_eqb by done. simpl.
  rewrite Hm', Hsnap'. simpl. by rewrite Hpos.
Qed.

(** X18. The code after the render loop leaves the model on its baseline
    and no snapshot behind: it resets the explosion before it erases the
    snapshot, whatever the factor was when the window closed. *)
Theorem X18_shutdown_restores (snap : list ExplodedVertexData) (es : list Main.Event)
    (a : Main.App) :
  forallb (fun e => negb (is_Shutdown e)) es = true ->
  follows_factor snap a ->
  let a1 := Main.run computeNormals es a in
  let a2 := Main.step computeNormals Main.Shutdown a1 in
  Main.model_positions a2 = Some (map original snap)
  /\ explodedModels (Main.world a2) = ∅
  /\ Main.explodeFactor a2 = Main.explodeFactor a1.
Proof.
  intros Hes Ha a1 a2.
  destruct (run_follows_factor snap es a Hes Ha) as (m & Hinit & _).
  fold a1 in Hinit.
  assert (Hnull : Main.offModel a1 <> nullptr) by apply Hinit.
  destruct (reset_keeps_initialized computeNormals computeNormals_positions
              _ _ m snap Hinit) as (m' & (_ & Hm' & Hsnap' & _) & Hpos).
  subst a2. simpl. unfold Main.shutdown, Main.model_positions, Main.with_world.
  rewrite nullptr_eqb by done. simpl.
  unfold cleanupAllExplosionData, cleanupExplosionData. simpl.
  rewrite Hm'. simpl. by rewrite Hpos.
Qed.

End MainInvariant.

(** ** [main.cpp]: the state after the start *)

Lemma Mesh_of_model_offModel (uninit : nat -> vec3) (p : addr) (m : Off.OffModel) :
  getOffModel (fst (Mesh_of_model uninit p m)) = p.
Proof.
  unfold Mesh_of_model, getOffModel.
  by destruct (calculateNormals _ _).
Qed.

Lemma buffered_positions_setupMesh (a : Main.App) :
  Main.gl a = setupMesh (Main.mesh a) ->
  Main.buffered_positions a = map position (vertices (Main.mesh a)).
Proof.
  intros Hgl. unfold Main.buffered_positions. rewrite Hgl.
  apply list_eq. intros k. rewrite !list_lookup_fmap.
  destruct (vertices (Main.mesh a) !! k) as [v|] eqn:Hv.
  - pose proof (lookup_lt_Some _ _ _ Hv) as Hk.
    rewrite lookup_seq_lt by done. cbn [fmap option_fmap option_map Nat.add].
    by rewrite (attributes_setupMesh _ k v Hv).
  - pose proof (lookup_ge_None_1 _ _ Hv) as Hk.
    by rewrite lookup_seq_ge.
Qed.

(** The snapshot depends on the positions and the vertex count only. *)
Lemma snapshot_of_ext (m1 m2 : Off.OffModel) :
  Off.numberOfVertices m1 = Z.of_nat (length (Off.vertices m1)) ->
  Off.numberOfVertices m2 = Off.numberOfVertices m1 ->
  Off.positions m2 = Off.positions m1 ->
  snapshot_of m2 = snapshot_of m1.
Proof.
  intros Hn1 Hn Hpos.
  assert (Hn2 : Off.numberOfVertices m2 = Z.of_nat (length (Off.vertices m2))).
  { rewrite Hn, Hn1, <- (positions_length m2), <- (positions_length m1). by rewrite Hpos. }
  rewrite !snapshot_of_map by done.
  transitivity (map (fun p => mkExplodedVertexData (vx p) (vy p) (vz p)) (Off.positions m2)).
  - unfold Off.positions. by rewrite map_map.
  - rewrite Hpos. unfold Off.positions. by rewrite map_map.
Qed.

Lemma startup_state (uninit : nat -> vec3) (p : addr) (w : World)
    (m : Off.OffModel) (a : Main.App) :
  heap w !! p = Some m ->
  explodedModels w !! p = None ->
  Off.numberOfVertices m = Z.of_nat (length (Off.vertices m)) ->
  Main.startup uninit p w = Some a ->
  Main.model_positions a = Some (Off.positions m)
  /\ Main.buffered_positions a = Off.positions m
  /\ Main.explodeFactor a = F32.zero
  /\ map original (snapshot_of m) = Off.positions m
  /\ follows_factor (snapshot_of m) a.
Proof.
  intros Hm Hnone Hn Hstart.
  destruct (Mesh_of_model_positions uninit p m Hn) as (Hmesh & Hpos & Hcount & _).
  pose proof (Mesh_of_model_offModel uninit p m) as Hoff.
  unfold Main.startup in Hstart.
  destruct (p =? nullptr)%N eqn:Hp; [done|]. apply N.eqb_neq in Hp.
  rewrite Hm in Hstart.
  destruct (Mesh_of_model uninit p m) as [mesh m'] eqn:HM.
  cbn [fst snd] in Hmesh, Hpos, Hcount, Hoff.
  rewrite Hoff, nullptr_eqb in Hstart by done.
  injection Hstart as <-.
  assert (Hn' : Off.numberOfVertices m' = Z.of_nat (length (Off.vertices m'))).
  { rewrite Hcount, Hn, <- (positions_length m'), <- (positions_length m). by rewrite Hpos. }
  assert (Hinit : initialized p m' (snapshot_of m')
                    (initializeExplosion p (set_model p m' w))).
  { apply initializeExplosion_initialized; try done.
    simpl. apply lookup_insert_eq. }
  rewrite (snapshot_of_ext m m') in Hinit by done.
  assert (Hsnap : map original (snapshot_of m) = Off.positions m)
    by by apply snapshot_of_positions.
  repeat split.
  - unfold Main.model_positions. cbn [Main.world Main.offModel].
    destruct Hinit as (_ & -> & _). simpl. by rewrite Hpos.
  - rewrite buffered_positions_setupMesh by done. done.
  - done.
  - exists m'. split; [done|]. left. split; [|done]. by rewrite Hpos.
Qed.

(** X16. After the start of [main] on a model whose vertex count is that of
    its vertex array and that has no snapshot yet, the model, the array
    buffer and the snapshot all hold the positions of the file, the explode
    factor is 0, and the model is initialized for the explosion. *)
Theorem X16_startup_state (uninit : nat -> vec3) (p : addr) (w : World)
    (m : Off.OffModel) (a : Main.App) :
  heap w !! p = Some m ->
  explodedModels w !! p = None ->
  Off.numberOfVertices m = Z.of_nat (length (Off.vertices m)) ->
  Main.startup uninit p w = Some a ->
  Main.model_positions a = Some (Off.positions m)
  /\ Main.buffered_positions a = Off.positions m
  /\ Main.explodeFactor a = F32.zero
  /\ map original (snapshot_of m) = Off.positions m
  /\ follows_factor (snapshot_of m) a.
Proof. apply startup_state. Qed.

Lemma tetrahedron_app_follows :
  follows_factor (snapshot_of tetrahedron) tetrahedron_app.
Proof.
  apply (startup_state (fun _ => vzero) 1%N (world_with 1%N tetrahedron) tetrahedron);
    vm_compute; reflexivity.
Qed.

Lemma X16_startup_state_witness :
  Main.model_positions tetrahedron_app = Some (Off.positions tetrahedron)
  /\ Main.buffered_positions tetrahedron_app = Off.positions tetrahedron
  /\ Main.explodeFactor tetrahedron_app = F32.zero
  /\ map original (snapshot_of tetrahedron) = Off.positions tetrahedron
  /\ follows_factor (snapshot_of tetrahedron) tetrahedron_app.
Proof.
  apply (X16_startup_state (fun _ => vzero) 1%N (world_with 1%N tetrahedron) tetrahedron);
    vm_compute; reflexivity.
Defined.

Lemma X15_model_follows_factor_witness :
  follows_factor (snapshot_of tetrahedron)
    (Main.run clearNormals
       [Main.ExplodeView; Main.Frame F32.half; Main.SliderMoved F32.one; Main.KeyN;
        Main.Frame F32.half]
       tetrahedron_app).
Proof.
  apply (X15_model_follows_factor clearNormals clearNormals_positions).
  - vm_compute. reflexivity.
  - exact tetrahedron_app_follows.
Defined.

Lemma X17_key_N_restores_witness :
  let a1 := Main.run clearNormals [Main.ExplodeView; Main.Frame F32.half] tetrahedron_app in
  let a2 := Main.step clearNormals Main.KeyN a1 in
  Main.model_positions a2 = Some (map original (snapshot_of tetrahedron))
  /\ Main.explodeFactor a2 = F32.zero
  /\ Main.explodeAnimation a2 = Main.explodeAnimation a1
  /\ Main.explodeDirection a2 = Main.explodeDirection a1
  /\ explodedModels (Main.world a2) !! Main.offModel a2 = Some (snapshot_of tetrahedron).
Proof.
  apply (X17_key_N_restores clearNormals clearNormals_positions).
  - vm_compute. reflexivity.
  - exact tetrahedron_app_follows.
Defined.

Lemma X18_shutdown_restores_witness :
  let a1 := Main.run clearNormals [Main.SliderMoved F32.one] tetrahedron_app in
  let a2 := Main.step clearNormals Main.Shutdown a1 in
  Main.model_positions a2 = Some (map original (snapshot_of tetrahedron))
  /\ explodedModels (Main.world a2) = ∅
  /\ Main.explodeFactor a2 = Main.explodeFactor a1.
Proof.
  apply (X18_shutdown_restores clearNormals clearNormals_positions).
  - vm_compute. reflexivity.
  - exact tetrahedron_app_follows.
Defined.

(** ** The constructor on a vertex that no face uses *)

Lemma corners_unreferenced (k : nat) (ts : list (Z * Z * Z)) :
  existsb (incident k) ts = false ->
  sum_list (map (corners k) ts) = 0%nat.
Proof.
  induction ts as [|t ts IH]; simpl; [done|].
  intros H. apply orb_false_iff in H. destruct H as [Ht Hts].
  by rewrite corners_not_incident, IH.
Qed.

Lemma last_incident_unreferenced (k : nat) (ts : list (Z * Z * Z)) :
  existsb (incident k) ts = false ->
  last_incident k ts = None.
Proof.
  induction ts as [|t ts IH]; simpl; [done|].
  intros H. apply orb_false_iff in H. destruct H as [Ht Hts].
  by rewrite IH, Ht.
Qed.

(** X21. A vertex of the model that no face refers to comes out of the
    constructor with its position, the zero normal, and the face centre
    the fresh [Vertex] happened to hold: neither [calculateNormals] nor
    [calculateFaceCenters] writes to it.  The vertex of the model is left
    as it was, normal and counter included. *)
Theorem X21_unreferenced_vertex (uninit : nat -> vec3) (p : addr) (m : Off.OffModel)
    (k : nat) (a : Off.Vertex) :
  Off.numberOfVertices m = Z.of_nat (length (Off.vertices m)) ->
  Off.vertices m !! k = Some a ->
  referenced k (Mesh_indices m) = false ->
  vertices (fst (Mesh_of_model uninit p m)) !! k
  = Some (mkMeshVertex (Off.pos a) vzero (uninit k))
  /\ Off.vertices (snd (Mesh_of_model uninit p m)) !! k = Some a.
Proof.
  intros Hn Ha Href. unfold referenced in Href.
  pose proof (lookup_lt_Some _ _ _ Ha) as Hk.
  set (v0 := mkMeshVertex (Off.pos a) vzero (uninit k)).
  assert (Hv0 : Mesh_vertices uninit m !! k = Some v0).
  { rewrite Mesh_vertices_map, list_lookup_fmap, lookup_seq_lt by lia.
    cbn [fmap option_fmap option_map Nat.add].
    by rewrite (list_lookup_total_correct _ _ _ Ha). }
  assert (Hacc : fst (accumulateNormals (Mesh_indices m)
                        (Mesh_vertices uninit m, Off.vertices m)) !! k = Some v0).
  { rewrite accumulateNormals_unreferenced by done. by rewrite Hv0. }
  assert (Hkept : normalized_or_kept v0 = v0).
  { unfold normalized_or_kept. cbn [normal v0]. by rewrite length_of_zero. }
  pose proof (calculateNormals_snd_lookup (Mesh_indices m) (Mesh_vertices uninit m)
                (Off.vertices m) k a Ha) as Hsnd.
  rewrite corners_unreferenced, Hacc in Hsnd by done. cbn [Nat.iter nat_rect] in Hsnd.
  assert (Hmir : mirrored v0 a = a).
  { unfold mirrored. cbn [normal v0]. by rewrite length_of_zero. }
  rewrite Hmir in Hsnd.
  assert (Hfst : fst (calculateNormals (Mesh_indices m)
                        (Mesh_vertices uninit m, Off.vertices m)) !! k = Some v0).
  { unfold calculateNormals. by rewrite normalizeNormals_lookup, Hacc; simpl; rewrite Hkept. }
  unfold Mesh_of_model.
  destruct (calculateNormals _ _) as [vs1 ovs1]. cbn [fst snd] in Hsnd, Hfst |- *.
  split; [|exact Hsnd].
  cbn [vertices]. unfold calculateFaceCenters.
  rewrite foldl_store_center_lookup, last_incident_unreferenced by done.
  exact Hfst.
Qed.

Lemma X21_unreferenced_vertex_witness :
  vertices (fst (Mesh_of_model (fun _ => vec3_of_ints 7 7 7) 1%N stray_vertex)) !! 3%nat
  = Some (mkMeshVertex (vec3_of_ints 3 3 3) vzero (vec3_of_ints 7 7 7))
  /\ Off.vertices (snd (Mesh_of_model (fun _ => vec3_of_ints 7 7 7) 1%N stray_vertex)) !! 3%nat
     = Some (vertex_at F32.three F32.three F32.three).
Proof.
  apply (X21_unreferenced_vertex (fun _ => vec3_of_ints 7 7 7) 1%N stray_vertex 3
           (vertex_at F32.three F32.three F32.three));
    vm_compute; reflexivity.
Defined.

(** ** [main.cpp]: the key handler *)

Lemma next_axis_cycle :
  Keys.next_axis Keys.axis_X = Keys.axis_Z
  /\ Keys.next_axis Keys.axis_Z = Keys.axis_Y
  /\ Keys.next_axis Keys.axis_Y = Keys.axis_X.
Proof. vm_compute. done. Qed.

Lemma next_axis_is_axis (r : vec3) :
  Keys.next_axis r = Keys.axis_X \/ Keys.next_axis r = Keys.axis_Y
  \/ Keys.next_axis r = Keys.axis_Z.
Proof.
  unfold Keys.next_axis.
  destruct (vec3_eqb r Keys.axis_Y); [by left|].
  destruct (vec3_eqb r Keys.axis_X); [by right; right|by right; left].
Qed.

(** X19. The space key always leaves the rotation axis on one of the three
    coordinate axes, whatever it was (a custom axis goes to Y); from there
    the key cycles X, Z, Y, X, so three more presses bring the same state
    back.  It writes nothing but the axis. *)
Theorem X19_space_cycles_axes (computeNormals : Off.OffModel -> Off.OffModel)
    (a : Main.App) (c : Keys.Controls) :
  let st1 := Keys.key_callback computeNormals Keys.KEY_SPACE true (a, c) in
  (Keys.rotationAxis (snd st1) = Keys.axis_X
   \/ Keys.rotationAxis (snd st1) = Keys.axis_Y
   \/ Keys.rotationAxis (snd st1) = Keys.axis_Z)
  /\ (vec3_eqb (Keys.rotationAxis c) Keys.axis_Y
      || vec3_eqb (Keys.rotationAxis c) Keys.axis_X = true
      \/ Keys.rotationAxis (snd st1) = Keys.axis_Y)
  /\ Keys.press computeNormals [Keys.KEY_SPACE; Keys.KEY_SPACE; Keys.KEY_SPACE] st1 = st1
  /\ Keys.press computeNormals [Keys.KEY_SPACE] st1 <> st1
  /\ st1 = (a, Keys.mkControls (Keys.rotationAxis (snd st1)) (Keys.autoRotate c)
                  (Keys.showImGuiWindow c) (Keys.captureMouse c) (Keys.cursor c)).
Proof.
  destruct next_axis_cycle as (HX & HZ & HY).
  cbn [Keys.key_callback Keys.press foldl snd Keys.rotationAxis Keys.autoRotate
       Keys.showImGuiWindow Keys.captureMouse Keys.cursor].
  split; [apply next_axis_is_axis|].
  split.
  { unfold Keys.next_axis.
    destruct (vec3_eqb _ Keys.axis_Y); [by left|].
    destruct (vec3_eqb _ Keys.axis_X); [by left|by right]. }
  destruct (next_axis_is_axis (Keys.rotationAxis c)) as [-> | [-> | ->]];
    rewrite ?HX, ?HY, ?HZ; repeat split; try done.
Qed.

Lemma key_callback_keeps_mouse (computeNormals : Off.OffModel -> Off.OffModel)
    (key : Keys.Key) (st : Main.App * Keys.Controls) :
  mouse_follows_window (snd st) \/ is_TAB key = true ->
  mouse_follows_window (snd (Keys.key_callback computeNormals key true st)).
Proof.
  destruct st as [a c]. unfold mouse_follows_window.
  destruct key; simpl; intros [H|H]; done.
Qed.

Lemma press_keeps_mouse (computeNormals : Off.OffModel -> Off.OffModel)
    (keys : list Keys.Key) (st : Main.App * Keys.Controls) :
  mouse_follows_window (snd st) \/ existsb is_TAB keys = true ->
  mouse_follows_window (snd (Keys.press computeNormals keys st)).
Proof.
  unfold Keys.press. revert st.
  induction keys as [|key keys IH]; intros st H; simpl.
  - by destruct H.
  - apply IH. simpl in H.
    destruct (is_TAB key) eqn:Hk.
    + left. apply key_callback_keeps_mouse. by right.
    + destruct H as [H|H]; [|by right].
      left. apply key_callback_keeps_mouse. by left.
Qed.

Lemma key_callback_window (computeNormals : Off.OffModel -> Off.OffModel)
    (key : Keys.Key) (st : Main.App * Keys.Controls) :
  Keys.showImGuiWindow (snd (Keys.key_callback computeNormals key true st))
  = if is_TAB key then negb (Keys.showImGuiWindow (snd st))
    else Keys.showImGuiWindow (snd st).
Proof. destruct st as [a c]. by destruct key. Qed.

(** X20. Once TAB has been pressed, and whatever keys follow, the mouse is
    captured exactly when the window of the controls is hidden and the
    cursor is disabled exactly when the mouse is captured; the window is
    shown or hidden by the parity of the number of presses of TAB.  The
    globals start with both flags true, which no press of TAB ever gives
    back. *)
Theorem X20_tab_couples_mouse_and_window (computeNormals : Off.OffModel -> Off.OffModel)
    (keys : list Keys.Key) (st : Main.App * Keys.Controls) :
  existsb is_TAB keys = true ->
  let c' := snd (Keys.press computeNormals keys st) in
  mouse_follows_window c'
  /\ Keys.showImGuiWindow c'
     = (if Nat.even (tab_presses keys) then Keys.showImGuiWindow (snd st)
        else negb (Keys.showImGuiWindow (snd st)))
  /\ ~ mouse_follows_window Keys.initial.
Proof.
  intros Htab c'. subst c'. split; [|split].
  - apply press_keeps_mouse. by right.
  - clear Htab. unfold Keys.press, tab_presses. revert st.
    induction keys as [|key keys IH]; intros st; [done|].
    cbn [foldl List.filter]. rewrite IH, key_callback_window.
    destruct (is_TAB key); [|done].
    cbn [length]. rewrite Nat.even_succ, <- Nat.negb_even.
    by destruct (Nat.even _), (Keys.showImGuiWindow (snd st)).
  - intros [H _]. done.
Qed.

Lemma X20_tab_couples_mouse_and_window_witness :
  let keys := [Keys.KEY_R; Keys.KEY_TAB; Keys.KEY_SPACE; Keys.KEY_TAB; Keys.KEY_TAB;
               Keys.KEY_B] in
  let c' := snd (Keys.press clearNormals keys (tetrahedron_app, Keys.initial)) in
  mouse_follows_window c'
  /\ Keys.showImGuiWindow c'
     = (if Nat.even (tab_presses keys)
        then Keys.showImGuiWindow (snd (tetrahedron_app, Keys.initial))
        else negb (Keys.showImGuiWindow (snd (tetrahedron_app, Keys.initial))))
  /\ ~ mouse_follows_window Keys.initial.
Proof.
  apply (X20_tab_couples_mouse_and_window clearNormals _ (tetrahedron_app, Keys.initial)).
  vm_compute. reflexivity.
Defined.

(** ** The normal pass: what a face contributes, what the last loop leaves *)

Lemma mul_nan_l (b : float) : F32.mul S754_nan b = S754_nan.
Proof. by destruct b. Qed.

Lemma scalar_add_nan_l (b : float) : F32.add S754_nan b = S754_nan.
Proof. by destruct b. Qed.

Lemma scalar_add_nan_r (a : float) : F32.add a S754_nan = S754_nan.
Proof. by destruct a. Qed.

Lemma is_nan_eq (x : float) : F32.is_nan x = true -> x = S754_nan.
Proof. by destruct x. Qed.

(** The length of a vector with a NaN coordinate is NaN, and NaN is not
    above 0.0001. *)
Lemma length_has_nan (v : vec3) :
  vec3_has_nan v = true -> F32.gtb (glm.length v) F32.lit_0_0001 = false.
Proof.
  destruct v as [x y z]. unfold vec3_has_nan, glm.length, glm.dot. cbn [vx vy vz].
  intros H. apply orb_true_iff in H. destruct H as [H|H];
    [apply orb_true_iff in H; destruct H as [H|H]|];
    apply is_nan_eq in H; subst;
    rewrite ?mul_nan_l, ?scalar_add_nan_l, ?scalar_add_nan_r, ?scalar_add_nan_l;
    reflexivity.
Qed.

(** The face normal of a triangle too small or too large for the square
    of its cross product: the legs 2^-40 give (NaN, NaN, +inf), the legs
    2^40 give the zero vector; three vertices on a line give NaN. *)
Example face_normal_out_of_range :
  let fn m := faceNormal_of (Mesh_vertices (fun _ => vzero) m) (0, 1, 2) in
  loaded_model (right_triangle (F32.pow2 (-40))) = true
  /\ fn (right_triangle (F32.pow2 (-40))) = mkvec3 S754_nan S754_nan (S754_infinity false)
  /\ loaded_model (right_triangle (F32.pow2 40)) = true
  /\ fn (right_triangle (F32.pow2 40)) = vzero
  /\ loaded_model collinear_face = true
  /\ fn collinear_face = nan3.
Proof. vm_compute. repeat split; reflexivity. Qed.

(** C2 (amended). In the normal pass, the iteration for a triangle (a,b,c)
    adds to the normals of a, b and c the value of
    glm::normalize(glm::cross(b-a, c-a)): the cross product of the edges
    after the per-face normalization, and not the cross product itself.
    The contribution is added once for each corner of the triangle that is
    the vertex, and the normals of the other vertices are left alone.
    When every coordinate of the cross product is a zero or NaN, the
    contribution is NaN in every coordinate. *)
Theorem C2_normalized_face_normal
    (vs : list MeshVertex) (ovs : list Off.Vertex) (a b c : Z) (k : nat) :
  let v1 := position (vs !!! Z.to_nat a) in
  let v2 := position (vs !!! Z.to_nat b) in
  let v3 := position (vs !!! Z.to_nat c) in
  let cross := glm.cross (glm.sub v2 v1) (glm.sub v3 v1) in
  let faceNormal := glm.normalize cross in
  fst (accumulate_triangle (vs, ovs) (a, b, c)) !! k
  = Nat.iter (corners k (a, b, c)) (add_normal faceNormal) <$> vs !! k
  /\ (zero_or_nan (vx cross) && zero_or_nan (vy cross) && zero_or_nan (vz cross) = true ->
      faceNormal = nan3).
Proof.
  intros v1 v2 v3 cross faceNormal. split; [apply accumulate_triangle_lookup|].
  intros H. apply andb_true_iff in H. destruct H as [H Hz].
  apply andb_true_iff in H. destruct H as [Hx Hy].
  subst faceNormal. destruct cross as [x y z]. by apply normalize_zero_or_nan.
Qed.

(** The second face of [repeated_index], which names vertex 0 twice. *)
Lemma C2_normalized_face_normal_witness :
  let vs := Mesh_vertices (fun _ => vzero) repeated_index in
  let ovs := Off.vertices repeated_index in
  fst (accumulate_triangle (vs, ovs) (0, 0, 1)) !! 0%nat
  = Nat.iter (corners 0 (0, 0, 1)) (add_normal nan3) <$> vs !! 0%nat
  /\ glm.normalize (glm.cross (glm.sub (position (vs !!! 0%nat)) (position (vs !!! 0%nat)))
                               (glm.sub (position (vs !!! 1%nat)) (position (vs !!! 0%nat))))
     = nan3.
Proof.
  intros vs ovs.
  destruct (C2_normalized_face_normal vs ovs 0 0 1 0) as [Hadd Hnan].
  assert (Hn := Hnan eq_refl).
  split; [|exact Hn].
  etransitivity; [exact Hadd|]. vm_compute. reflexivity.
Defined.

(** C2 as stated fails: for the right triangle with legs 2 the cross
    product of the edges is (0,0,4), and the pass adds (0,0,1). *)
Lemma C2_counterexample :
  let vs := Mesh_vertices (fun _ => vzero) big_triangle in
  let idx := Mesh_indices big_triangle in
  let cross := glm.cross (glm.sub (position (vs !!! 1%nat)) (position (vs !!! 0%nat)))
                         (glm.sub (position (vs !!! 2%nat)) (position (vs !!! 0%nat))) in
  let accumulated := fst (accumulateNormals idx (vs, Off.vertices big_triangle)) in
  idx = [0; 1; 2]
  /\ cross = vec3_of_ints 0 0 4
  /\ normal (accumulated !!! 0%nat) = vec3_of_ints 0 0 1
  /\ normal (accumulated !!! 0%nat) <> glm.add (glm.vec3_splat F32.zero) cross.
Proof. vm_compute. repeat split; discriminate. Qed.

(** C6 (amended). After the normal pass, the normal of a vertex is the
    value of glm::normalize on its accumulated normal when the test
    length > 0.0001 holds for the accumulated normal, and is otherwise
    exactly its accumulated normal, left as it is: the last loop has no
    other branch and resets nothing to zero.  The test fails for the zero
    vector, so a vertex that no triangle refers to ends with the zero
    normal; it fails as well for an accumulated normal with a NaN
    coordinate, which stays as it is. *)
Theorem C6_normalized_or_left
    (idx : list Z) (vs : list MeshVertex) (ovs : list Off.Vertex)
    (k : nat) (v : MeshVertex) :
  fst (accumulateNormals idx (vs, ovs)) !! k = Some v ->
  fst (calculateNormals idx (vs, ovs)) !! k
  = Some (if F32.gtb (glm.length (normal v)) F32.lit_0_0001
          then set_normal (glm.normalize (normal v)) v
          else v)
  /\ (referenced k idx = false ->
      normal <$> fst (calculateNormals idx (vs, ovs)) !! k = Some vzero)
  /\ (vec3_has_nan (normal v) = true ->
      fst (calculateNormals idx (vs, ovs)) !! k = Some v).
Proof.
  intros Hv.
  assert (Hfinal : fst (calculateNormals idx (vs, ovs)) !! k = Some (normalized_or_kept v)).
  { unfold calculateNormals. by rewrite normalizeNormals_lookup, Hv. }
  split; [exact Hfinal|split].
  - intros Href. rewrite Hfinal. cbn [fmap option_fmap option_map]. f_equal.
    rewrite accumulateNormals_unreferenced in Hv by done.
    destruct (vs !! k) as [v0|]; [|done]. injection Hv as <-.
    unfold normalized_or_kept. cbn [normal set_normal].
    by rewrite length_of_zero.
  - intros Hnan. rewrite Hfinal. unfold normalized_or_kept.
    by rewrite length_has_nan.
Qed.

(** The stray vertex of [stray_vertex]. *)
Lemma C6_normalized_or_left_witness :
  let vs := Mesh_vertices (fun _ => vzero) stray_vertex in
  let idx := Mesh_indices stray_vertex in
  let ovs := Off.vertices stray_vertex in
  let v := mkMeshVertex (vec3_of_ints 3 3 3) vzero vzero in
  fst (calculateNormals idx (vs, ovs)) !! 3%nat
  = Some (if F32.gtb (glm.length (normal v)) F32.lit_0_0001
          then set_normal (glm.normalize (normal v)) v
          else v)
  /\ (referenced 3 idx = false ->
      normal <$> fst (calculateNormals idx (vs, ovs)) !! 3%nat = Some vzero)
  /\ (vec3_has_nan (normal v) = true ->
      fst (calculateNormals idx (vs, ovs)) !! 3%nat = Some v).
Proof.
  intros vs idx ovs v.
  apply (C6_normalized_or_left idx vs ovs 3 v).
  vm_compute. reflexivity.
Defined.

(** C6 as stated fails, in both halves.  In [folded_pair] the two face
    normals at vertex 0 are (0, -2^-15, 1) and (0, 0, -1); they add up to
    (0, -2^-15, 0), whose length 2^-15 is below 0.0001, and the pass
    leaves the normal of vertex 0 at that value, which is neither the zero
    vector nor of unit length.  In [repeated_index] the accumulated normal
    of vertex 0 is NaN, the test fails, and the normal stays NaN: not
    zero, and no length at all.  And a normal that has been normalized
    need not have the length 1: at vertex 0 of the tetrahedron the
    accumulated normal (-1, -1, -1) passes the test and the length of the
    result is 1 - 2^-24. *)
Lemma C6_counterexample :
  let vs := Mesh_vertices (fun _ => vzero) folded_pair in
  let idx := Mesh_indices folded_pair in
  let accumulated := fst (accumulateNormals idx (vs, Off.vertices folded_pair)) in
  let mesh := fst (Mesh_of_model (fun _ => vzero) 1%N folded_pair) in
  let nan_mesh := fst (Mesh_of_model (fun _ => vzero) 1%N repeated_index) in
  let solid := fst (Mesh_of_model (fun _ => vzero) 1%N tetrahedron) in
  let solid_accumulated :=
    fst (accumulateNormals (Mesh_indices tetrahedron)
           (Mesh_vertices (fun _ => vzero) tetrahedron, Off.vertices tetrahedron)) in
  (loaded_model folded_pair = true
   /\ F32.ltb (glm.length (normal (accumulated !!! 0%nat))) F32.lit_0_0001 = true
   /\ normal (vertices mesh !!! 0%nat)
      = mkvec3 F32.zero (SFopp (F32.pow2 (-15))) F32.zero
   /\ vec3_eqb (normal (vertices mesh !!! 0%nat)) vzero = false
   /\ F32.eqb (glm.length (normal (vertices mesh !!! 0%nat))) F32.one = false)
  /\ (loaded_model repeated_index = true
      /\ normal (vertices nan_mesh !!! 0%nat) = nan3
      /\ vec3_eqb (normal (vertices nan_mesh !!! 0%nat)) vzero = false
      /\ F32.eqb (glm.length (normal (vertices nan_mesh !!! 0%nat))) F32.one = false
      /\ F32.ltb (glm.length (normal (vertices nan_mesh !!! 0%nat))) F32.lit_0_0001 = false)
  /\ (loaded_model tetrahedron = true
      /\ normal (solid_accumulated !!! 0%nat) = vec3_of_ints (-1) (-1) (-1)
      /\ F32.gtb (glm.length (normal (solid_accumulated !!! 0%nat))) F32.lit_0_0001 = true
      /\ glm.length (normal (vertices solid !!! 0%nat))
         = F32.sub F32.one (F32.pow2 (-24))
      /\ F32.eqb (glm.length (normal (vertices solid !!! 0%nat))) F32.one = false).
Proof. vm_compute. repeat split; reflexivity. Qed.
